(** * Request-lifecycle controller of golang-serverless

    A shallow embedding of [src/main.go] (and of the older copy of its
    middleware in [src/unnamed/part_000]): the correlation stage [tracing],
    the access-log stage [logging], the handler registry [routes], the
    liveness flag [healthy] and the shutdown orchestration of [main].

    Go values are modelled as follows.
    - [http.Header] is a finite map from canonical header names to the list
      of their values.  Every key the program uses ("X-Request-Id",
      "User-Agent", "Content-Type", ...) is already in canonical form, so
      [Header.Get] and [Header.Set] are a lookup and an insertion.
    - a [context.Context] is the chain of its key/value pairs, newest first.
    - the [http.ResponseWriter] of a request is a record that remembers the
      header map under construction, the status line once it has been sent
      together with the header snapshot that went out with it, and the body.
    - the process state a handler can reach ([healthy], the clock, standard
      output and the history of logger calls) is the record [World]. *)

From stdpp Require Import base strings gmap list pretty.
From Stdlib Require Import ZArith Ascii.

Local Open Scope string_scope.
Local Open Scope list_scope.
Local Open Scope Z_scope.

(** ** The Go standard library, as far as the program uses it *)

Module Go.

(** Values of interface type [any], as stored in a context. *)
Inductive any : Type :=
  | AnyNil
  | AnyString (s : string)
  | AnyInt (n : Z).

(** The type assertion [v.(string)], in its two-result form. *)
Definition assert_string (v : any) : string * bool :=
  match v with
  | AnyString s => (s, true)
  | _ => ("", false)
  end.

(** A context key is an interface value: two keys are equal when their
    dynamic types and their values are. *)
Record ctxKey : Type := CtxKey { key_type : string; key_value : Z }.

Global Instance ctxKey_eq_dec : EqDecision ctxKey.
Proof. solve_decision. Defined.

Abbreviation Context := (list (ctxKey * any)).

(** [context.WithValue(parent, key, val)]. *)
Definition WithValue (parent : Context) (k : ctxKey) (v : any) : Context :=
  (k, v) :: parent.

(** [ctx.Value(key)]: the value of the innermost binding of [key], [nil]
    when there is none. *)
Fixpoint Value (ctx : Context) (k : ctxKey) : any :=
  match ctx with
  | [] => AnyNil
  | (k', v) :: parent => if decide (k' = k) then v else Value parent k
  end.

Abbreviation Header := (gmap string (list string)).

Definition Header_Get (h : Header) (key : string) : string :=
  match h !! key with
  | Some (v :: _) => v
  | _ => ""
  end.

Definition Header_Set (h : Header) (key value : string) : Header :=
  <[key := [value]]> h.

Record Request : Type := mkRequest {
  Method : string;
  RequestURI : string;
  URL_Path : string;
  RemoteAddr : string;
  ProtoAtLeast11 : bool;
  Headers : Header;
  Ctx : Context
}.

(** [r.WithContext(ctx)]: a copy of [r] whose context is [ctx]. *)
Definition WithContext (r : Request) (ctx : Context) : Request :=
  {| Method := Method r; RequestURI := RequestURI r; URL_Path := URL_Path r;
     RemoteAddr := RemoteAddr r; ProtoAtLeast11 := ProtoAtLeast11 r;
     Headers := Headers r; Ctx := ctx |}.

Definition UserAgent (r : Request) : string := Header_Get (Headers r) "User-Agent".

(** The response under construction, as the handlers see it.  [rw_header]
    is the header map of the handler.  [rw_sent] is [None] until the status
    line is fixed; [WriteHeader] then records the status code with a
    snapshot of [rw_header], and later changes of [rw_header] no longer
    reach the client.  [rw_body] is the data the handlers have written with
    [Write].  [rw_superfluous] counts the [WriteHeader] calls that came too
    late (the server reports each of them on its error log).

    What the client receives is read off with [outbound_status],
    [outbound_header] and [outbound_body].  When it puts the response on
    the wire the server adds headers of its own, which no handler sees:
    Date, Content-Length, and a Content-Type that it detects from the first
    bytes of the body when the handler has set none.  These are not part of
    the model: [rw_sent] and [outbound_header] tell which values the
    program has given to the headers it sets, not that no other header goes
    out. *)
Record ResponseWriter : Type := mkResponse {
  rw_header : Header;
  rw_sent : option (Z * Header);
  rw_body : list string;
  rw_superfluous : nat
}.

Definition newResponse : ResponseWriter :=
  {| rw_header := ∅; rw_sent := None; rw_body := []; rw_superfluous := 0%nat |}.

(** One line on standard output: either written by a [log.Logger] (prefix,
    time stamp, text) or written directly ([fmt.Println]). *)
Inductive OutLine : Type :=
  | Logged (prefix : string) (stamp : Z) (text : string)
  | Raw (text : string).

(** Writers a logger can be attached to. *)
Inductive Writer : Type := Stdout | Stderr | Discard.

(** [log.New(out, prefix, flags)]. *)
Record Logger : Type := New { lg_out : Writer; lg_prefix : string; lg_flags : Z }.

Global Instance Writer_eq_dec : EqDecision Writer.
Proof. solve_decision. Defined.
Global Instance Logger_eq_dec : EqDecision Logger.
Proof. solve_decision. Defined.

(** The process state.  [now] is what [time.Now().UnixNano()] returns; the
    environment moves it between steps.  [stdout_ok] and [stderr_ok] say
    whether a write to the stream currently succeeds.  [log_calls] is the
    history of logger calls: the logger and the operands it was given. *)
Record World : Type := mkWorld {
  healthy : Z;
  now : Z;
  stdout : list OutLine;
  stderr : list OutLine;
  stdout_ok : bool;
  stderr_ok : bool;
  log_calls : list (Logger * list string)
}.

(** What a handler works on: the response of the request and the process. *)
Record State : Type := mkState { rw : ResponseWriter; world : World }.

(** A call either returns or panics; a panic unwinds through the callers,
    running their deferred functions. *)
Inductive Outcome : Type := Returned | Panicked (v : string).

(** [http.Handler]: [ServeHTTP(w, r)]. *)
Definition Handler : Type := Request → State → Outcome * State.

Definition with_rw (f : ResponseWriter → ResponseWriter) (st : State) : State :=
  {| rw := f (rw st); world := world st |}.

Definition with_world (f : World → World) (st : State) : State :=
  {| rw := rw st; world := f (world st) |}.

(** [w.Header().Set(key, value)]. *)
Definition SetHeader (key value : string) (w : ResponseWriter) : ResponseWriter :=
  {| rw_header := Header_Set (rw_header w) key value; rw_sent := rw_sent w;
     rw_body := rw_body w; rw_superfluous := rw_superfluous w |}.

(** [w.WriteHeader(code)]: the first call sends the status line with the
    headers set so far; a later call changes nothing. *)
Definition WriteHeader (code : Z) (w : ResponseWriter) : ResponseWriter :=
  match rw_sent w with
  | Some _ =>
      {| rw_header := rw_header w; rw_sent := rw_sent w;
         rw_body := rw_body w; rw_superfluous := S (rw_superfluous w) |}
  | None =>
      {| rw_header := rw_header w; rw_sent := Some (code, rw_header w);
         rw_body := rw_body w; rw_superfluous := rw_superfluous w |}
  end.

(** Status codes that carry no body: 1xx, 204 and 304. *)
Definition bodyAllowedForStatus (code : Z) : bool :=
  if decide (100 ≤ code ≤ 199) then false
  else if decide (code = 204) then false
  else if decide (code = 304) then false
  else true.

(** [w.Write(data)]: sends status 200 first when no status went out yet;
    the data is dropped when the status carries no body.  The data that is
    taken goes to the connection, which sends it, except in the answer to a
    HEAD request: there the connection takes the data and discards it (see
    [outbound_body]). *)
Definition Write (data : string) (w : ResponseWriter) : ResponseWriter :=
  let w := match rw_sent w with None => WriteHeader 200 w | Some _ => w end in
  match rw_sent w with
  | Some (code, _) =>
      if bodyAllowedForStatus code then
        {| rw_header := rw_header w; rw_sent := rw_sent w;
           rw_body := rw_body w ++ [data]; rw_superfluous := rw_superfluous w |}
      else w
  | None => w
  end.

(** The status the client receives, and the headers of the program that
    go out with it (the server adds its own, see [ResponseWriter]): those
    sent by the handler, or status 200 with the headers as they stand when
    the handler returns without having sent any. *)
Definition outbound_status (w : ResponseWriter) : Z :=
  match rw_sent w with Some (code, _) => code | None => 200 end.

Definition outbound_header (w : ResponseWriter) : Header :=
  match rw_sent w with Some (_, h) => h | None => rw_header w end.

(** The body the client receives: what the handlers wrote, and nothing in
    the answer to a HEAD request.  [method] is the method of the request
    that is answered. *)
Definition outbound_body (method : string) (w : ResponseWriter) : list string :=
  if bool_decide (method = "HEAD") then [] else rw_body w.

(** [fmt.Sprintln(operands...)]: the operands separated by spaces, then a
    newline. *)
Definition newline : string := String (Ascii.ascii_of_nat 10) "".

Definition dquote : string := String (Ascii.ascii_of_nat 34) "".

Definition Sprintln (operands : list string) : string :=
  String.concat " " operands ++ newline.

(** Writing one line to a stream; a failed write leaves the stream as it
    is and returns an error. *)
Definition write_line (out : Writer) (l : OutLine) (w : World) : World * bool :=
  match out with
  | Stdout =>
      if stdout_ok w then
        ({| healthy := healthy w; now := now w; stdout := stdout w ++ [l];
            stderr := stderr w; stdout_ok := stdout_ok w;
            stderr_ok := stderr_ok w; log_calls := log_calls w |}, true)
      else (w, false)
  | Stderr =>
      if stderr_ok w then
        ({| healthy := healthy w; now := now w; stdout := stdout w;
            stderr := stderr w ++ [l]; stdout_ok := stdout_ok w;
            stderr_ok := stderr_ok w; log_calls := log_calls w |}, true)
      else (w, false)
  | Discard => (w, true)
  end.

Definition record_call (lg : Logger) (operands : list string) (w : World) : World :=
  {| healthy := healthy w; now := now w; stdout := stdout w;
     stderr := stderr w; stdout_ok := stdout_ok w;
     stderr_ok := stderr_ok w; log_calls := log_calls w ++ [(lg, operands)] |}.

(** [logger.Output]: one line, with the prefix of the logger and the time,
    written to the writer of the logger; the error of the write is the
    result. *)
Definition Output (lg : Logger) (text : string) (w : World) : World * bool :=
  write_line (lg_out lg) (Logged (lg_prefix lg) (now w) text) w.

(** [logger.Println(operands...)].  [Println] has no result: the error of
    the write is dropped. *)
Definition Println (lg : Logger) (operands : list string) (w : World) : World :=
  fst (Output lg (Sprintln operands) (record_call lg operands w)).

(** [logger.Printf], with the text already formatted; as for [Println] the
    error of the write is dropped. *)
Definition Printf (lg : Logger) (text : string) (w : World) : World :=
  fst (Output lg text (record_call lg [text] w)).

(** The clock moves. *)
Definition set_now (t : Z) (w : World) : World :=
  {| healthy := healthy w; now := t; stdout := stdout w;
     stderr := stderr w; stdout_ok := stdout_ok w;
     stderr_ok := stderr_ok w; log_calls := log_calls w |}.

(** [fmt.Sprintf("%d", n)]: the decimal digits of [n], after a minus sign
    when [n] is negative. *)
Definition Sprintf_d (n : Z) : string := pretty n.

(** Decimal numerals, and the characters net/http accepts in the value of a
    header field (no control character other than the tab). *)
Definition is_digit (c : ascii) : bool :=
  bool_decide (48 ≤ nat_of_ascii c ≤ 57)%nat.

Fixpoint all_digits (s : string) : bool :=
  match s with
  | EmptyString => true
  | String c s' => is_digit c && all_digits s'
  end.

Definition is_decimal (s : string) : bool :=
  match s with
  | EmptyString => false
  | String c d =>
      if bool_decide (c = "-"%char) then negb (bool_decide (d = "")) && all_digits d
      else all_digits s
  end.

Definition valid_field_char (c : ascii) : bool :=
  bool_decide (nat_of_ascii c = 9 ∨ 32 ≤ nat_of_ascii c ∧ nat_of_ascii c ≠ 127)%nat.

Fixpoint ValidHeaderFieldValue (s : string) : bool :=
  match s with
  | EmptyString => true
  | String c s' => valid_field_char c && ValidHeaderFieldValue s'
  end.

(** [fmt.Fprintln(w, s)] on a response. *)
Definition Fprintln (s : string) (w : ResponseWriter) : ResponseWriter :=
  Write (Sprintln [s]) w.

(** [fmt.Println(s)]: one line written directly to standard output. *)
Definition fmt_Println (s : string) (w : World) : World :=
  fst (write_line Stdout (Raw (Sprintln [s])) w).

(** The status codes the program uses. *)
Definition StatusNoContent : Z := 204.
Definition StatusOK : Z := 200.
Definition StatusMovedPermanently : Z := 301.
Definition StatusBadRequest : Z := 400.
Definition StatusNotFound : Z := 404.
Definition StatusInternalServerError : Z := 500.
Definition StatusServiceUnavailable : Z := 503.

(** [http.Error(w, msg, code)]. *)
Definition Error (msg : string) (code : Z) (w : ResponseWriter) : ResponseWriter :=
  let w := SetHeader "Content-Type" "text/plain; charset=utf-8" w in
  let w := SetHeader "X-Content-Type-Options" "nosniff" w in
  let w := WriteHeader code w in
  Fprintln msg w.

(** A deferred function runs when the surrounding function is left, whether
    its body returned or panicked, and the outcome of the body stands. *)
Definition defer (deferred : State → State) (body : State → Outcome * State)
    (st : State) : Outcome * State :=
  let '(o, st') := body st in (o, deferred st').

(** *** [http.ServeMux] *)

Abbreviation ServeMux := (list (string * Handler)).

Definition NewServeMux : ServeMux := [].

Definition HandleFunc (pattern : string) (h : Handler) (mux : ServeMux) : ServeMux :=
  mux ++ [(pattern, h)].

Fixpoint ends_with_slash (s : string) : bool :=
  match s with
  | EmptyString => false
  | String c EmptyString => bool_decide (c = "/"%char)
  | String _ s' => ends_with_slash s'
  end.

(** The entry registered for exactly [path], if any. *)
Fixpoint mux_exact (mux : ServeMux) (path : string) : option Handler :=
  match mux with
  | [] => None
  | (pattern, h) :: mux' =>
      if decide (pattern = path) then Some h else mux_exact mux' path
  end.

(** The longest pattern that ends in a slash and is a prefix of [path]. *)
Fixpoint mux_subtree (mux : ServeMux) (path : string)
    (best : option (string * Handler)) : option (string * Handler) :=
  match mux with
  | [] => best
  | (pattern, h) :: mux' =>
      let better :=
        match best with
        | Some (p, _) => bool_decide (String.length p < String.length pattern)%nat
        | None => true
        end in
      if ends_with_slash pattern && String.prefix pattern path && better
      then mux_subtree mux' path (Some (pattern, h))
      else mux_subtree mux' path best
  end.

Definition mux_match (mux : ServeMux) (path : string) : option Handler :=
  match mux_exact mux path with
  | Some h => Some h
  | None => snd <$> mux_subtree mux path None
  end.

Definition NotFoundHandler : Handler := fun _ st =>
  (Returned, with_rw (Error "404 page not found" StatusNotFound) st).

(** [http.Redirect]: [location] is the escaped target and [body] the short
    HTML note sent to a GET request. *)
Definition Redirect (location body : string) (code : Z) : Handler := fun r st =>
  let hadCT := bool_decide (is_Some (rw_header (rw st) !! "Content-Type")) in
  let st := with_rw (SetHeader "Location" location) st in
  let st :=
    if negb hadCT && (bool_decide (Method r = "GET") || bool_decide (Method r = "HEAD"))
    then with_rw (SetHeader "Content-Type" "text/html; charset=utf-8") st
    else st in
  let st := with_rw (WriteHeader code) st in
  let st :=
    if negb hadCT && bool_decide (Method r = "GET")
    then with_rw (Fprintln body) st
    else st in
  (Returned, st).

(** [mux.ServeHTTP(w, r)].  The multiplexer answers the request-target "*"
    with status 400, redirects a request whose path is not in its cleaned
    form, and otherwise calls the matching handler.  [redirect] stands for
    the path cleaning of the library: from the method and the path of the
    request it returns the target and the note of the redirection when the
    path is not clean. *)
Definition ServeMux_ServeHTTP (redirect : string → string → option (string * string))
    (mux : ServeMux) : Handler := fun r st =>
  if decide (RequestURI r = "*") then
    let st := if ProtoAtLeast11 r then with_rw (SetHeader "Connection" "close") st else st in
    (Returned, with_rw (WriteHeader StatusBadRequest) st)
  else
    match redirect (Method r) (URL_Path r) with
    | Some (location, body) => Redirect location body StatusMovedPermanently r st
    | None =>
        match mux_match mux (URL_Path r) with
        | Some h => h r st
        | None => NotFoundHandler r st
        end
    end.

End Go.

(** ** [src/main.go] *)

Module Main.
Import Go.

Definition requestIDKey : ctxKey := CtxKey "main.key" 0.

(** [log.New(os.Stdout, "http: ", log.LstdFlags)]; [LstdFlags] is 3. *)
Definition logger : Logger := New Stdout "http: " 3.

(** The generator built in [main]:
    [fmt.Sprintf("%d", time.Now().UnixNano())]. *)
Definition nextRequestID (w : World) : string * World :=
  (Sprintf_d (now w), w).

Definition tracing (nextRequestID : World → string * World) (next : Handler) : Handler :=
  fun r st =>
    let requestID := Header_Get (Headers r) "X-Request-Id" in
    let '(requestID, st) :=
      if decide (requestID = "") then
        let '(id, w) := nextRequestID (world st) in
        (id, {| rw := rw st; world := w |})
      else (requestID, st) in
    let ctx := WithValue (Ctx r) requestIDKey (AnyString requestID) in
    let st := with_rw (SetHeader "X-Request-Id" requestID) st in
    next (WithContext r ctx) st.

Definition logging (logger : Logger) (next : Handler) : Handler :=
  fun r =>
    defer
      (fun st =>
         let '(requestID, ok) := assert_string (Value (Ctx r) requestIDKey) in
         let requestID := if negb ok then "unknown" else requestID in
         with_world
           (Println logger [requestID; Method r; URL_Path r; RemoteAddr r; UserAgent r])
           st)
      (fun st => next r st).

Definition healthHandler : Handler := fun _ st =>
  if decide (healthy (world st) = 1) then
    (Returned, with_rw (WriteHeader StatusNoContent) st)
  else
    (Returned, with_rw (WriteHeader StatusServiceUnavailable) st).

Definition helloHandler : Handler := fun _ st =>
  (Returned, with_rw (Fprintln "Hello, World!") st).

(** The body of the answer: a JSON object whose field status is ok. *)
Definition status_ok_json : string :=
  "{" ++ dquote ++ "status" ++ dquote ++ ":" ++ dquote ++ "ok" ++ dquote ++ "}".

Definition forceTextHandler : Handler := fun _ st =>
  let st := with_rw (SetHeader "Content-Type" "text/plain; charset=utf-8") st in
  let st := with_rw (SetHeader "X-Content-Type-Options" "nosniff") st in
  let st := with_rw (WriteHeader StatusOK) st in
  (Returned, with_rw (Fprintln status_ok_json) st).

(** [html/template] is not part of the program.  [parse_index] is the error
    of parsing the inline template of [indexHandler], if there is one;
    [execute_index ip t] is what executing the template writes for the
    client address [ip] at time [t], one [Write] per element, and the error
    the execution ends with, if any.  [redirect] is the path cleaning of the
    multiplexer (see [ServeMux_ServeHTTP]). *)
Section Registry.

Variable parse_index : option string.
Variable execute_index : string → Z → list string * option string.
Variable redirect : string → string → option (string * string).

Definition indexHandler : Handler := fun r st =>
  if decide (URL_Path r ≠ "/") then
    (Returned, with_rw (Error "Not Found" StatusNotFound) st)
  else
    match parse_index with
    | Some err => (Returned, with_rw (Error err StatusInternalServerError) st)
    | None =>
        let '(chunks, err) := execute_index (RemoteAddr r) (now (world st)) in
        let st := with_rw (fun w => foldl (fun w c => Write c w) w chunks) st in
        match err with
        | Some e => (Returned, with_world (fmt_Println e) st)
        | None => (Returned, st)
        end
    end.

Definition routes : ServeMux :=
  let router := NewServeMux in
  let router := HandleFunc "/" indexHandler router in
  let router := HandleFunc "/health" healthHandler router in
  let router := HandleFunc "/hello" helloHandler router in
  let router := HandleFunc "/json-as-text" forceTextHandler router in
  router.

(** The [Handler] field of the server built in [main]. *)
Definition server_Handler : Handler :=
  tracing nextRequestID (logging logger (ServeMux_ServeHTTP redirect routes)).

End Registry.

(** The liveness flag: the two stores of [main] and the load of
    [healthHandler]. *)
Definition set_ready (w : World) : World :=
  {| healthy := 1; now := now w; stdout := stdout w; stderr := stderr w;
     stdout_ok := stdout_ok w; stderr_ok := stderr_ok w; log_calls := log_calls w |}.

Definition set_draining (w : World) : World :=
  {| healthy := 0; now := now w; stdout := stdout w; stderr := stderr w;
     stdout_ok := stdout_ok w; stderr_ok := stderr_ok w; log_calls := log_calls w |}.

Definition is_ready (w : World) : bool := bool_decide (healthy w = 1).

End Main.

(** ** [src/unnamed/part_000]: the earlier copy of the middleware *)

Module Part000.
Import Go.

Definition requestIDKey : ctxKey := CtxKey "main.key" 0.

Definition tracing (nextRequestID : World → string * World) (next : Handler) : Handler :=
  fun r st =>
    let requestID := Header_Get (Headers r) "X-Request-Id" in
    let '(requestID, st) :=
      if decide (requestID = "") then
        let '(id, w) := nextRequestID (world st) in
        (id, {| rw := rw st; world := w |})
      else (requestID, st) in
    let ctx := WithValue (Ctx r) requestIDKey (AnyString requestID) in
    let st := with_rw (SetHeader "X-Request-Id" requestID) st in
    next (WithContext r ctx) st.

Definition logging (logger : Logger) (next : Handler) : Handler :=
  fun r =>
    defer
      (fun st =>
         let '(requestID, ok) := assert_string (Value (Ctx r) requestIDKey) in
         let requestID := if negb ok then "unknown" else requestID in
         with_world
           (Println logger [requestID; Method r; URL_Path r; RemoteAddr r; UserAgent r])
           st)
      (fun st => next r st).


(** Lines 14-18 of [part_000]: the generator and the logger of its [main]. *)
Definition nextRequestID (w : World) : string * World :=
  (Sprintf_d (now w), w).

Definition logger : Logger := New Stdout "http: " 3.

Definition helloHandler : Handler := fun _ st =>
  (Returned, with_rw (Fprintln "Hello, World!") st).

Section Registry.

(** As in [Main]: what the template engine does with the inline template of
    [part_000], and what the multiplexer does with unclean paths. *)
Variable parse_index : option string.
Variable execute_index : string → Z → list string * option string.
Variable redirect : string → string → option (string * string).

Definition indexHandler : Handler := fun r st =>
  if decide (URL_Path r ≠ "/") then
    (Returned, with_rw (Error "Not Found" StatusNotFound) st)
  else
    match parse_index with
    | Some err => (Returned, with_rw (Error err StatusInternalServerError) st)
    | None =>
        let '(chunks, err) := execute_index (RemoteAddr r) (now (world st)) in
        let st := with_rw (fun w => foldl (fun w c => Write c w) w chunks) st in
        match err with
        | Some e => (Returned, with_world (fmt_Println e) st)
        | None => (Returned, st)
        end
    end.

Definition setupRoutes : ServeMux :=
  let router := NewServeMux in
  let router := HandleFunc "/" indexHandler router in
  let router := HandleFunc "/hello" helloHandler router in
  router.

(** Line 22 of [part_000]: the [Handler] field of its server.  The other
    fields of that server (lines 21-25: the address, a [ReadTimeout] and a
    [WriteTimeout] of 10000 ns, [MaxHeaderBytes]) are not modelled, so this
    is the handler chain of [part_000] and not its server. *)
Definition server_Handler : Handler :=
  tracing nextRequestID (logging logger (ServeMux_ServeHTTP redirect setupRoutes)).

End Registry.

End Part000.

(** ** The shutdown orchestration of [main]

    [main] runs two threads: the main goroutine and the goroutine that waits
    for the termination signal.  Each is a sequence of program points; one
    step executes the statement at the program point of one thread, or stays
    where it is when that statement blocks.  An execution is the run of a
    schedule: a list of actions, each either a step of a thread or a move of
    the environment (a signal, a health check, the clock). *)

Module Orchestrator.
Import Go Main.

(** Program points of the main goroutine, with the lines of [main.go]. *)
Inductive MainPc : Type :=
  | MNotify       (* 47-49: the two channels, signal.Notify *)
  | MSpawn        (* 51: go func() *)
  | MLogReady     (* 66: logger.Println("Server is ready ...") *)
  | MSetReady     (* 67: atomic.StoreInt32(&healthy, 1) *)
  | MListen       (* 68: server.ListenAndServe(), binding the socket *)
  | MServe        (* 68: server.ListenAndServe(), the accept loop *)
  | MWaitDone     (* 72: <-done *)
  | MLogStopped   (* 73: logger.Println("Server stopped") *)
  | MReturn       (* 74: main returns *)
  | MEnd.

(** Program points of the goroutine of lines 51-64. *)
Inductive SigPc : Type :=
  | GNotStarted
  | GWaitQuit     (* 52: <-quit *)
  | GLogShutdown  (* 53: logger.Println("Server is shutting down...") *)
  | GSetDraining  (* 54: atomic.StoreInt32(&healthy, 0) *)
  | GWithTimeout  (* 56: context.WithTimeout(..., 30 * time.Second) *)
  | GKeepAlives   (* 59: server.SetKeepAlivesEnabled(false) *)
  | GShutdown     (* 60: server.Shutdown(ctx) closes the listener *)
  | GDrain        (* 60: server.Shutdown(ctx) waits for the connections *)
  | GCheck        (* 60-63: if err != nil { Fatalf } ; close(done) *)
  | GEnd.

Inductive ServerState : Type := SrvNew | SrvListening | SrvClosed.

Inductive Exit : Type := ExitCode (code : Z) | KilledBySignal.

Global Instance MainPc_eq_dec : EqDecision MainPc.
Proof. solve_decision. Defined.
Global Instance SigPc_eq_dec : EqDecision SigPc.
Proof. solve_decision. Defined.
Global Instance ServerState_eq_dec : EqDecision ServerState.
Proof. solve_decision. Defined.
Global Instance Exit_eq_dec : EqDecision Exit.
Proof. solve_decision. Defined.

(** What an execution does, in the order it does it. *)
Inductive Event : Type :=
  | EvNotify
  | EvSpawn
  | EvSignal
  | EvQuitReceived
  | EvPrintln (operands : list string)
  | EvFatalf (text : string)
  | EvStoreHealthy (v : Z)
  | EvBind
  | EvServeReturned
  | EvWithTimeout (seconds : nat)
  | EvKeepAlivesOff
  | EvShutdown
  | EvDrained (err : option string)
  | EvCloseDone
  | EvHealthCheck (status : Z)
  | EvExit (e : Exit).

Global Instance Event_eq_dec : EqDecision Event.
Proof. solve_decision. Defined.

(** What the environment decides: the listen address given on the command
    line, whether binding it fails, and the requests in flight when the
    server is shut down.  A request in flight is [Some n] when it completes
    after [n] more seconds and [None] when it never does.  The theorems
    hold for every such list; which lists the timeouts of lines 42-44 leave
    possible is what [time_left] below tells. *)
Record Env : Type := mkEnv {
  listenAddr : string;
  bind_error : option string;
  inflight : list (option nat);
  start_time : Z
}.

Record Proc : Type := mkProc {
  p_world : World;
  main_pc : MainPc;
  sig_pc : SigPc;
  notified : bool;
  quit : nat;
  server : ServerState;
  keepalives : bool;
  active : list (option nat);
  shutdown_err : option string;
  done_closed : bool;
  exited : option Exit;
  trace : list Event
}.

(** The state at line 47.  Lines 29-45 come first: [flag.Parse] (lines
    29-30) yields the listen address of [env], or ends the process itself
    when the command line asks for the usage text or holds a flag it does
    not know; the logger, the generator and the server value of lines 32-45
    are built without any effect.  The executions of this model are the
    executions of [main] that reach line 47. *)
Definition initial (env : Env) : Proc :=
  {| p_world :=
       {| healthy := 0; now := start_time env; stdout := []; stderr := [];
          stdout_ok := true; stderr_ok := true; log_calls := [] |};
     main_pc := MNotify; sig_pc := GNotStarted; notified := false; quit := 0%nat;
     server := SrvNew; keepalives := true; active := []; shutdown_err := None;
     done_closed := false; exited := None; trace := [] |}.

Definition emit (e : Event) (s : Proc) : Proc :=
  {| p_world := p_world s; main_pc := main_pc s; sig_pc := sig_pc s;
     notified := notified s; quit := quit s; server := server s;
     keepalives := keepalives s; active := active s;
     shutdown_err := shutdown_err s; done_closed := done_closed s;
     exited := exited s; trace := trace s ++ [e] |}.

Definition on_world (f : World → World) (s : Proc) : Proc :=
  {| p_world := f (p_world s); main_pc := main_pc s; sig_pc := sig_pc s;
     notified := notified s; quit := quit s; server := server s;
     keepalives := keepalives s; active := active s;
     shutdown_err := shutdown_err s; done_closed := done_closed s;
     exited := exited s; trace := trace s |}.

Definition goto_main (pc : MainPc) (s : Proc) : Proc :=
  {| p_world := p_world s; main_pc := pc; sig_pc := sig_pc s;
     notified := notified s; quit := quit s; server := server s;
     keepalives := keepalives s; active := active s;
     shutdown_err := shutdown_err s; done_closed := done_closed s;
     exited := exited s; trace := trace s |}.

Definition goto_sig (pc : SigPc) (s : Proc) : Proc :=
  {| p_world := p_world s; main_pc := main_pc s; sig_pc := pc;
     notified := notified s; quit := quit s; server := server s;
     keepalives := keepalives s; active := active s;
     shutdown_err := shutdown_err s; done_closed := done_closed s;
     exited := exited s; trace := trace s |}.

Definition set_notified (s : Proc) : Proc :=
  {| p_world := p_world s; main_pc := main_pc s; sig_pc := sig_pc s;
     notified := true; quit := quit s; server := server s;
     keepalives := keepalives s; active := active s;
     shutdown_err := shutdown_err s; done_closed := done_closed s;
     exited := exited s; trace := trace s |}.

Definition set_quit (n : nat) (s : Proc) : Proc :=
  {| p_world := p_world s; main_pc := main_pc s; sig_pc := sig_pc s;
     notified := notified s; quit := n; server := server s;
     keepalives := keepalives s; active := active s;
     shutdown_err := shutdown_err s; done_closed := done_closed s;
     exited := exited s; trace := trace s |}.

Definition set_server (v : ServerState) (conns : list (option nat)) (s : Proc) : Proc :=
  {| p_world := p_world s; main_pc := main_pc s; sig_pc := sig_pc s;
     notified := notified s; quit := quit s; server := v;
     keepalives := keepalives s; active := conns;
     shutdown_err := shutdown_err s; done_closed := done_closed s;
     exited := exited s; trace := trace s |}.

Definition set_keepalives (b : bool) (s : Proc) : Proc :=
  {| p_world := p_world s; main_pc := main_pc s; sig_pc := sig_pc s;
     notified := notified s; quit := quit s; server := server s;
     keepalives := b; active := active s;
     shutdown_err := shutdown_err s; done_closed := done_closed s;
     exited := exited s; trace := trace s |}.

Definition set_shutdown_err (e : option string) (s : Proc) : Proc :=
  {| p_world := p_world s; main_pc := main_pc s; sig_pc := sig_pc s;
     notified := notified s; quit := quit s; server := server s;
     keepalives := keepalives s; active := active s;
     shutdown_err := e; done_closed := done_closed s;
     exited := exited s; trace := trace s |}.

Definition close_done (s : Proc) : Proc :=
  {| p_world := p_world s; main_pc := main_pc s; sig_pc := sig_pc s;
     notified := notified s; quit := quit s; server := server s;
     keepalives := keepalives s; active := active s;
     shutdown_err := shutdown_err s; done_closed := true;
     exited := exited s; trace := trace s |}.

(** [os.Exit(code)], the return of [main], or the death of the process. *)
Definition exit (e : Exit) (s : Proc) : Proc :=
  emit (EvExit e)
    {| p_world := p_world s; main_pc := main_pc s; sig_pc := sig_pc s;
       notified := notified s; quit := quit s; server := server s;
       keepalives := keepalives s; active := active s;
       shutdown_err := shutdown_err s; done_closed := done_closed s;
       exited := Some e; trace := trace s |}.

(** [logger.Println] and [logger.Fatalf] of [main]; [Fatalf] prints and
    then calls [os.Exit(1)]. *)
Definition log_Println (operands : list string) (s : Proc) : Proc :=
  emit (EvPrintln operands) (on_world (Println logger operands) s).

Definition log_Fatalf (text : string) (s : Proc) : Proc :=
  exit (ExitCode 1) (emit (EvFatalf text) (on_world (Printf logger text) s)).

(** The wait of [server.Shutdown(ctx)]: it returns [nil] as soon as no
    connection is active, and the error of the context when the deadline
    passes first. *)
Definition idle (c : option nat) : bool :=
  match c with Some O => true | _ => false end.

Definition tick (c : option nat) : option nat :=
  match c with Some (S n) => Some n | _ => c end.

Fixpoint drain (deadline : nat) (conns : list (option nat)) : option string :=
  if forallb idle conns then None
  else
    match deadline with
    | O => Some "context deadline exceeded"
    | S d => drain d (map tick conns)
    end.

(** The deadline of line 56, in seconds. *)
Definition shutdownTimeout : nat := 30.





(** The texts of the two [Fatalf] calls. *)
Definition listen_text (addr err : string) : string :=
  "Could not listen on " +:+ addr +:+ ": " +:+ err +:+ newline.

Definition fatal_text (err : string) : string :=
  "Could not gracefully shutdown the server: " +:+ err +:+ newline.

Definition step_main (env : Env) (s : Proc) : Proc :=
  match main_pc s with
  | MNotify => goto_main MSpawn (emit EvNotify (set_notified s))
  | MSpawn => goto_main MLogReady (emit EvSpawn (goto_sig GWaitQuit s))
  | MLogReady =>
      goto_main MSetReady
        (log_Println ["Server is ready to handle requests at"; listenAddr env] s)
  | MSetReady =>
      goto_main MListen (emit (EvStoreHealthy 1) (on_world set_ready s))
  | MListen =>
      match server s with
      | SrvClosed => goto_main MWaitDone (emit EvServeReturned s)
      | _ =>
          match bind_error env with
          | Some err =>
              log_Fatalf (listen_text (listenAddr env) err) s
          | None =>
              goto_main MServe (emit EvBind (set_server SrvListening (active s) s))
          end
      end
  | MServe =>
      match server s with
      | SrvClosed => goto_main MWaitDone (emit EvServeReturned s)
      | _ => s
      end
  | MWaitDone => if done_closed s then goto_main MLogStopped s else s
  | MLogStopped => goto_main MReturn (log_Println ["Server stopped"] s)
  | MReturn => goto_main MEnd (exit (ExitCode 0) s)
  | MEnd => s
  end.

Definition step_sig (env : Env) (s : Proc) : Proc :=
  match sig_pc s with
  | GNotStarted => s
  | GWaitQuit =>
      match quit s with
      | O => s
      | S n => goto_sig GLogShutdown (emit EvQuitReceived (set_quit n s))
      end
  | GLogShutdown =>
      goto_sig GSetDraining (log_Println ["Server is shutting down..."] s)
  | GSetDraining =>
      goto_sig GWithTimeout (emit (EvStoreHealthy 0) (on_world set_draining s))
  | GWithTimeout => goto_sig GKeepAlives (emit (EvWithTimeout shutdownTimeout) s)
  | GKeepAlives => goto_sig GShutdown (emit EvKeepAlivesOff (set_keepalives false s))
  | GShutdown =>
      let conns := match server s with SrvListening => inflight env | _ => [] end in
      goto_sig GDrain (emit EvShutdown (set_server SrvClosed conns s))
  | GDrain =>
      let err := drain shutdownTimeout (active s) in
      goto_sig GCheck (emit (EvDrained err) (set_shutdown_err err s))
  | GCheck =>
      match shutdown_err s with
      | Some err =>
          log_Fatalf (fatal_text err) s
      | None => goto_sig GEnd (emit EvCloseDone (close_done s))
      end
  | GEnd => s
  end.

(** A health check that reaches the server while it listens: the request
    runs through the two stages and [healthHandler]. *)
Definition health_check (r : Request) (s : Proc) : Proc :=
  match server s with
  | SrvListening =>
      let st :=
        (tracing nextRequestID (logging logger healthHandler) r
           {| rw := newResponse; world := p_world s |}).2 in
      emit (EvHealthCheck (outbound_status (rw st))) (on_world (fun _ => world st) s)
  | _ => s
  end.

(** An interrupt or a termination signal, the two signals line 49
    registers.  Before [signal.Notify] it kills the process; afterwards it
    is put into the channel [quit], which holds one signal, and is dropped
    when the channel is full.  Every other signal is outside the model: the
    program does not handle it, and what it does to the process does not
    depend on the program. *)
Definition deliver_signal (s : Proc) : Proc :=
  if notified s then
    emit EvSignal (match quit s with O => set_quit 1 s | _ => s end)
  else exit KilledBySignal (emit EvSignal s).

Inductive Action : Type :=
  | RunMain
  | RunSignalHandler
  | Signal
  | HealthCheck (r : Request)
  | Clock (t : Z).

Definition step (env : Env) (s : Proc) (a : Action) : Proc :=
  match exited s with
  | Some _ => s
  | None =>
      match a with
      | RunMain => step_main env s
      | RunSignalHandler => step_sig env s
      | Signal => deliver_signal s
      | HealthCheck r => health_check r s
      | Clock t => on_world (set_now t) s
      end
  end.

Definition exec (env : Env) (schedule : list Action) : Proc :=
  foldl (step env) (initial env) schedule.

(** In [tr], every occurrence of [b] comes after an occurrence of [a]. *)
Definition precedes (a b : Event) (tr : list Event) : Prop :=
  ∀ i, tr !! i = Some b → ∃ j, (j < i)%nat ∧ tr !! j = Some a.

(** The same as a check: going through [tr] from the start, [seen] tells
    whether an [a] has been met. *)
Fixpoint precedesb (a b : Event) (seen : bool) (tr : list Event) : bool :=
  match tr with
  | [] => true
  | e :: tr' =>
      (if decide (e = b) then seen else true) &&
      precedesb a b (seen || bool_decide (e = a)) tr'
  end.

(** How far each thread has come. *)
Definition main_rank (pc : MainPc) : nat :=
  match pc with
  | MNotify => 0 | MSpawn => 1 | MLogReady => 2 | MSetReady => 3 | MListen => 4
  | MServe => 5 | MWaitDone => 6 | MLogStopped => 7 | MReturn => 8 | MEnd => 9
  end.

Definition sig_rank (pc : SigPc) : nat :=
  match pc with
  | GNotStarted => 0 | GWaitQuit => 1 | GLogShutdown => 2 | GSetDraining => 3
  | GWithTimeout => 4 | GKeepAlives => 5 | GShutdown => 6 | GDrain => 7
  | GCheck => 8 | GEnd => 9
  end.

(** *** Invariants of the executions

    [Positions]: an event is in the trace exactly when the thread that
    emits it is past the statement that does. *)
Record Positions (s : Proc) : Prop := {
  pos_ready : EvStoreHealthy 1 ∈ trace s ↔ (3 <? main_rank (main_pc s))%nat;
  pos_draining : EvStoreHealthy 0 ∈ trace s ↔ (3 <? sig_rank (sig_pc s))%nat;
  pos_keepalives : EvKeepAlivesOff ∈ trace s ↔ (5 <? sig_rank (sig_pc s))%nat;
  pos_shutdown : EvShutdown ∈ trace s ↔ (6 <? sig_rank (sig_pc s))%nat;
  pos_signal :
    (0 <? quit s)%nat ∨ (1 <? sig_rank (sig_pc s))%nat → EvSignal ∈ trace s;
  pos_spawn : sig_pc s = GNotStarted ↔ (main_rank (main_pc s) <=? 1)%nat
}.

(** [Order]: the order of the events of one thread. *)
Record Order (s : Proc) : Prop := {
  ord_signal : precedes EvSignal (EvStoreHealthy 0) (trace s);
  ord_draining : precedes (EvStoreHealthy 0) EvKeepAlivesOff (trace s);
  ord_keepalives : precedes EvKeepAlivesOff EvShutdown (trace s);
  ord_shutdown : ∀ err, precedes EvShutdown (EvDrained err) (trace s);
  ord_ready : precedes (EvStoreHealthy 1) EvBind (trace s)
}.

(** [Flag]: the value of [healthy], from the stores in the trace. *)
Record Flag (s : Proc) : Prop := {
  flag_unset : EvStoreHealthy 1 ∉ trace s → healthy (p_world s) = 0;
  flag_ready :
    EvStoreHealthy 1 ∈ trace s → EvStoreHealthy 0 ∉ trace s →
    healthy (p_world s) = 1;
  flag_drained :
    EvStoreHealthy 0 ∈ trace s →
    precedes (EvStoreHealthy 1) (EvStoreHealthy 0) (trace s) →
    healthy (p_world s) = 0
}.

(** [Outcome]: how the two threads meet at the end. *)
Record Outcome (s : Proc) : Prop := {
  out_end : sig_pc s = GEnd → shutdown_err s = None;
  out_done : done_closed s = true → sig_pc s = GEnd;
  out_waited : (6 <? main_rank (main_pc s))%nat → done_closed s = true;
  out_stopped :
    EvPrintln ["Server stopped"] ∈ trace s → (7 <? main_rank (main_pc s))%nat;
  out_exit0 : EvExit (ExitCode 0) ∈ trace s → (8 <? main_rank (main_pc s))%nat;
  out_closed : (6 <? sig_rank (sig_pc s))%nat → server s = SrvClosed;
  out_notified : (0 <? main_rank (main_pc s))%nat → notified s = true;
  out_closedone : EvCloseDone ∈ trace s → sig_pc s = GEnd
}.

(** [Drained]: the result of the wait is kept for the check of line 60. *)
Definition Drained (s : Proc) : Prop :=
  ∀ err, EvDrained err ∈ trace s →
    (7 <? sig_rank (sig_pc s))%nat ∧ shutdown_err s = err.

(** [Fatal]: with an error pending at line 60 the process is still running,
    or it has left through [Fatalf]. *)
Definition Fatal (s : Proc) : Prop :=
  ∀ e, sig_pc s = GCheck → shutdown_err s = Some e →
    exited s = None ∨
    (exited s = Some (ExitCode 1) ∧ EvFatalf (fatal_text e) ∈ trace s).

(** The two stores as operations on the flag alone. *)
Inductive FlagOp : Type := SetReady | SetDraining.

Global Instance FlagOp_eq_dec : EqDecision FlagOp.
Proof. solve_decision. Defined.

Definition apply_op (w : World) (op : FlagOp) : World :=
  match op with
  | SetReady => set_ready w
  | SetDraining => set_draining w
  end.

Definition apply_ops (ops : list FlagOp) (w : World) : World :=
  foldl apply_op w ops.


(** [Finish]: what the threads have left in the trace, and how the process
    can have ended. *)
Record Finish (env : Env) (s : Proc) : Prop := {
  fin_notify : EvNotify ∈ trace s ↔ (0 <? main_rank (main_pc s))%nat;
  fin_closedone : sig_pc s = GEnd → EvCloseDone ∈ trace s;
  fin_drained : (7 <? sig_rank (sig_pc s))%nat → EvDrained (shutdown_err s) ∈ trace s;
  fin_stopped :
    (7 <? main_rank (main_pc s))%nat → EvPrintln ["Server stopped"] ∈ trace s;
  fin_listening : server s = SrvListening → EvBind ∈ trace s;
  fin_bind :
    EvBind ∈ trace s → bind_error env = None ∧ (4 <? main_rank (main_pc s))%nat;
  fin_quit : (quit s <=? 1)%nat;
  fin_exit0 : exited s = Some (ExitCode 0) → EvExit (ExitCode 0) ∈ trace s;
  fin_killed : exited s = Some KilledBySignal → EvNotify ∉ trace s;
  fin_exit1 :
    exited s = Some (ExitCode 1) →
    match bind_error env with
    | Some err => EvFatalf (listen_text (listenAddr env) err) ∈ trace s
    | None => False
    end ∨
    match shutdown_err s with
    | Some e => EvFatalf (fatal_text e) ∈ trace s
    | None => False
    end;
  fin_codes :
    exited s = None ∨ exited s = Some (ExitCode 0) ∨
    exited s = Some (ExitCode 1) ∨ exited s = Some KilledBySignal
}.

(** [Ending]: the order of the last events of a graceful shutdown. *)
Record Ending (s : Proc) : Prop := {
  end_closed : precedes (EvDrained None) EvCloseDone (trace s);
  end_stopped : precedes EvCloseDone (EvPrintln ["Server stopped"]) (trace s);
  end_exit : precedes (EvPrintln ["Server stopped"]) (EvExit (ExitCode 0)) (trace s)
}.

(** [Checks]: the health checks that were answered. *)
Record Checks (s : Proc) : Prop := {
  chk_bind : ∀ c, precedes EvBind (EvHealthCheck c) (trace s);
  chk_draining : precedes (EvStoreHealthy 0) (EvHealthCheck 503) (trace s);
  chk_values : ∀ c, EvHealthCheck c ∈ trace s → c = 204 ∨ c = 503
}.

(** [Settled]: when the ready store came first, every health check after
    the draining store is answered with 503. *)
Definition Settled (s : Proc) : Prop :=
  precedes (EvStoreHealthy 1) (EvStoreHealthy 0) (trace s) →
  ∀ i j c,
    trace s !! i = Some (EvStoreHealthy 0) → (i < j)%nat →
    trace s !! j = Some (EvHealthCheck c) → c = 503.

(** [Effects]: what the steps of the goroutine have done to the server,
    from how far the goroutine has come. *)
Record Effects (env : Env) (s : Proc) : Prop := {
  eff_keepalives : keepalives s = false ↔ (5 <? sig_rank (sig_pc s))%nat;
  eff_server : server s = SrvClosed ↔ (6 <? sig_rank (sig_pc s))%nat;
  eff_waited : is_Some (shutdown_err s) → (7 <? sig_rank (sig_pc s))%nat;
  eff_active :
    active s = [] ∨ ((6 <? sig_rank (sig_pc s))%nat ∧ active s = inflight env)
}.

(** How far the two threads have come together. *)
Definition progress (s : Proc) : nat :=
  (main_rank (main_pc s) + sig_rank (sig_pc s))%nat.

(** Whether the next statement of a thread can run: the accept loop ends
    when the listener is closed, [<-done] needs the channel closed and
    [<-quit] a signal in the channel. *)
Definition main_enabled (s : Proc) : bool :=
  match main_pc s with
  | MServe => bool_decide (server s = SrvClosed)
  | MWaitDone => done_closed s
  | MEnd => false
  | _ => true
  end.

Definition sig_enabled (s : Proc) : bool :=
  match sig_pc s with
  | GNotStarted | GEnd => false
  | GWaitQuit => (0 <? quit s)%nat
  | _ => true
  end.

(** A stretch of a schedule in which both threads get a turn. *)
Definition round (block : list Action) : Prop :=
  RunMain ∈ block ∧ RunSignalHandler ∈ block.

(** [Calm]: with a socket that can be bound and requests that complete
    before the deadline nothing goes wrong. *)
Record Calm (s : Proc) : Prop := {
  calm_err : shutdown_err s = None;
  calm_done : sig_pc s = GEnd → done_closed s = true;
  calm_end : main_pc s = MEnd ↔ exited s = Some (ExitCode 0);
  calm_exit :
    exited s = None ∨ exited s = Some (ExitCode 0) ∨
    (exited s = Some KilledBySignal ∧ notified s = false)
}.

(** [Armed]: [signal.Notify] has run and a signal is in the channel or has
    been taken out of it. *)
Record Armed (s : Proc) : Prop := {
  armed_notified : notified s = true;
  armed_signal : (0 <? quit s)%nat ∨ (1 <? sig_rank (sig_pc s))%nat
}.

End Orchestrator.

(** ** Vocabulary of the statements about the two stages *)

Module Stages.
Import Go Main.

(** [untouched k w w']: from [w] to [w'] the header [k] keeps its values,
    in the header map and in what is sent to the client. *)
Definition untouched (k : string) (w w' : ResponseWriter) : Prop :=
  rw_header w' !! k = rw_header w !! k ∧
  match rw_sent w with
  | Some s => rw_sent w' = Some s
  | None =>
      match rw_sent w' with
      | Some (_, h) => h !! k = rw_header w !! k
      | None => True
      end
  end.

(** A handler that leaves the correlation header and the loggers alone and
    sends the status line at most once. *)
Definition quiet (h : Handler) : Prop :=
  ∀ r st,
    untouched "X-Request-Id" (rw st) (rw (h r st).2) ∧
    log_calls (world (h r st).2) = log_calls (world st) ∧
    (rw_sent (rw st) = None →
     rw_superfluous (rw (h r st).2) = rw_superfluous (rw st)).

(** The correlation id of a request served in [w]: the inbound header, or
    the generated one when the header is absent or empty. *)
Definition correlation_id (gen : World → string * World) (r : Request) (w : World) : string :=
  if decide (Header_Get (Headers r) "X-Request-Id" = "") then (gen w).1
  else Header_Get (Headers r) "X-Request-Id".

(** The access-log record of a request. *)
Definition access_record (id : string) (r : Request) : list string :=
  [id; Method r; URL_Path r; RemoteAddr r; UserAgent r].

(** A response that has not been started, in the process state [w]. *)
Definition fresh (w : World) : State := {| rw := newResponse; world := w |}.

End Stages.

(** ** Concrete inputs *)

Module Examples.
Import Go Main Orchestrator.

Definition world0 : World :=
  {| healthy := 1; now := 1700000000000000000; stdout := []; stderr := [];
     stdout_ok := true; stderr_ok := true; log_calls := [] |}.

Definition get (path : string) (remote : string) (headers : Header) : Request :=
  {| Method := "GET"; RequestURI := path; URL_Path := path; RemoteAddr := remote;
     ProtoAtLeast11 := true; Headers := headers; Ctx := [] |}.

Definition req_tagged : Request :=
  get "/hello" "10.0.0.7:40312" {[ "X-Request-Id" := ["abc-123"] ]}.

Definition req_hello : Request := get "/hello" "10.0.0.7:40312" ∅.

Definition req_health : Request := get "/health" "10.0.0.9:51844" ∅.

(** A template engine that rejects the inline template, and a multiplexer
    that finds every path clean. *)
Definition parse_fails : option string := Some "template: index:2: expected :=".
Definition execute_nothing (ip : string) (t : Z) : list string * option string := ([], None).
Definition no_redirect (method path : string) : option (string * string) := None.

Definition env_quick : Env :=
  {| listenAddr := ":9000"; bind_error := None;
     inflight := [Some 2; Some 2; Some 2; Some 2; Some 2]%nat;
     start_time := 1700000000000000000 |}.


(** The main goroutine up to the accept loop. *)
Definition startup : list Action := [RunMain; RunMain; RunMain; RunMain; RunMain].

(** The goroutine of the signal, from [<-quit] to the end. *)
Definition shutdown : list Action := replicate 9 RunSignalHandler.

(** A signal while the server serves. *)
Definition graceful : list Action :=
  startup ++ [Signal] ++ shutdown ++ [RunMain; RunMain; RunMain; RunMain].

(** A signal that arrives before line 67 has run. *)
Definition early_signal : list Action :=
  [RunMain; RunMain; Signal; RunSignalHandler; RunSignalHandler; RunSignalHandler;
   RunMain; RunMain; RunMain; HealthCheck req_health].


Definition req_index : Request := get "/" "10.0.0.7:40312" ∅.

Definition req_json : Request := get "/json-as-text" "10.0.0.7:40312" ∅.

Definition req_missing : Request := get "/missing" "10.0.0.7:40312" ∅.

Definition req_head : Request :=
  {| Method := "HEAD"; RequestURI := "/hello"; URL_Path := "/hello";
     RemoteAddr := "10.0.0.7:40312"; ProtoAtLeast11 := true; Headers := ∅; Ctx := [] |}.

(** Rounds in which a health check arrives and both threads get a turn. *)
Definition fair_rounds : list (list Action) :=
  replicate 18 [HealthCheck req_health; RunMain; RunSignalHandler].

(** A template engine that accepts the inline template and fails while it
    executes it, after the first chunk has been written. *)
Definition parse_ok : option string := None.
Definition execute_fails (ip : string) (t : Z) : list string * option string :=
  (["<h1>"], Some "template: index:2:15: executing index: no such function").

(** The port is taken. *)
Definition env_port_taken : Env :=
  {| listenAddr := ":9000";
     bind_error := Some "listen tcp :9000: bind: address already in use";
     inflight := []; start_time := 1700000000000000000 |}.


End Examples.


(** * Proofs *)

(** ** Facts about the library model *)

Module GoFacts.
Import Go Stages.

(** *** Decimal formatting *)

Lemma is_digit_pretty_N_char x : is_digit (pretty_N_char x) = true.
Proof. unfold pretty_N_char. by repeat case_match. Qed.

Lemma pretty_N_go_digits x s :
  all_digits s = true → all_digits (pretty_N_go x s) = true.
Proof.
  revert s. induction (N.lt_wf_0 x) as [x _ IH]; intros s Hs.
  destruct (decide (x = 0)%N) as [->|Hx]; [by rewrite pretty_N_go_0|].
  rewrite pretty_N_go_step by lia. apply IH.
  - apply N.div_lt; lia.
  - simpl. by rewrite is_digit_pretty_N_char.
Qed.

Lemma pretty_N_go_nonempty x s : s ≠ "" → pretty_N_go x s ≠ "".
Proof.
  revert s. induction (N.lt_wf_0 x) as [x _ IH]; intros s Hs.
  destruct (decide (x = 0)%N) as [->|Hx]; [by rewrite pretty_N_go_0|].
  rewrite pretty_N_go_step by lia. apply IH; [apply N.div_lt; lia|done].
Qed.

Lemma pretty_pos_digits (p : positive) :
  all_digits (pretty p) = true ∧ pretty p ≠ "".
Proof.
  unfold pretty, pretty_positive, pretty, pretty_N.
  rewrite decide_False by done. split.
  - by apply pretty_N_go_digits.
  - rewrite pretty_N_go_step by lia. by apply pretty_N_go_nonempty.
Qed.

Lemma all_digits_not_dash c s : all_digits (String c s) = true → c ≠ "-"%char.
Proof. simpl. intros [Hc _]%andb_prop ->. done. Qed.

Lemma Sprintf_d_decimal n : is_decimal (Sprintf_d n) = true.
Proof.
  unfold Sprintf_d, pretty, pretty_Z. destruct n as [|p|p]; [done|..].
  - destruct (pretty_pos_digits p) as [Hd Hne].
    destruct (pretty p) as [|c s] eqn:E; [done|]. unfold is_decimal.
    rewrite bool_decide_false; [done|]. by eapply all_digits_not_dash.
  - destruct (pretty_pos_digits p) as [Hd Hne].
    change ("-" +:+ pretty p) with (String "-"%char (pretty p)).
    unfold is_decimal. rewrite bool_decide_true by done.
    rewrite Hd. by rewrite bool_decide_false.
Qed.

Lemma Sprintf_d_nonempty n : Sprintf_d n ≠ "".
Proof. pose proof (Sprintf_d_decimal n) as H. by destruct (Sprintf_d n). Qed.

Lemma Sprintf_d_inj n m : Sprintf_d n = Sprintf_d m → n = m.
Proof. apply (inj pretty). Qed.

Lemma digit_valid c : is_digit c = true → valid_field_char c = true.
Proof.
  unfold is_digit, valid_field_char. intros H%bool_decide_eq_true.
  apply bool_decide_eq_true. lia.
Qed.

Lemma all_digits_valid s : all_digits s = true → ValidHeaderFieldValue s = true.
Proof.
  induction s as [|c s IH]; simpl; [done|].
  intros [Hc Hs]%andb_prop. by rewrite digit_valid, IH.
Qed.

Lemma decimal_valid s : is_decimal s = true → ValidHeaderFieldValue s = true.
Proof.
  destruct s as [|c s]; [done|]. unfold is_decimal.
  case_bool_decide as Hc.
  - subst c. intros [_ Hd]%andb_prop. simpl. by rewrite all_digits_valid.
  - apply all_digits_valid.
Qed.

(** *** The logger *)

Lemma log_calls_Println lg ops w :
  log_calls (Println lg ops w) = log_calls w ++ [(lg, ops)].
Proof.
  unfold Println, Output, write_line. simpl.
  destruct (lg_out lg); simpl; [destruct (stdout_ok w)|destruct (stderr_ok w)|]; done.
Qed.

Lemma healthy_Println lg ops w : healthy (Println lg ops w) = healthy w.
Proof.
  unfold Println, Output, write_line; simpl.
  destruct (lg_out lg); simpl; [destruct (stdout_ok w)|destruct (stderr_ok w)|]; done.
Qed.

Lemma healthy_Printf lg text w : healthy (Printf lg text w) = healthy w.
Proof.
  unfold Printf, Output, write_line; simpl.
  destruct (lg_out lg); simpl; [destruct (stdout_ok w)|destruct (stderr_ok w)|]; done.
Qed.

Lemma log_calls_fmt_Println s w : log_calls (fmt_Println s w) = log_calls w.
Proof. unfold fmt_Println, write_line. by destruct (stdout_ok w). Qed.

(** *** Calls on a response that leave a header alone *)

Lemma untouched_refl k w : untouched k w w.
Proof. split; [done|]. by destruct (rw_sent w). Qed.

Lemma untouched_trans k w1 w2 w3 :
  untouched k w1 w2 → untouched k w2 w3 → untouched k w1 w3.
Proof.
  intros [Hh12 Hs12] [Hh23 Hs23]. split; [congruence|].
  destruct (rw_sent w1) as [s1|].
  - rewrite Hs12 in Hs23. done.
  - destruct (rw_sent w2) as [[c2 h2]|].
    + by rewrite Hs23.
    + destruct (rw_sent w3) as [[c3 h3]|]; [congruence|done].
Qed.

Lemma untouched_outbound k w w' :
  untouched k w w' → outbound_header w' !! k = outbound_header w !! k.
Proof.
  intros [Hh Hs]. unfold outbound_header.
  destruct (rw_sent w) as [[c h]|].
  - by rewrite Hs.
  - by destruct (rw_sent w') as [[c' h']|].
Qed.

Lemma untouched_SetHeader k key v w : key ≠ k → untouched k w (SetHeader key v w).
Proof.
  intros Hne. split; simpl.
  - unfold Header_Set. by rewrite lookup_insert_ne.
  - by destruct (rw_sent w).
Qed.

Lemma untouched_WriteHeader k code w : untouched k w (WriteHeader code w).
Proof.
  unfold WriteHeader. destruct (rw_sent w) as [s|] eqn:Hs; split; simpl; try done.
  - by rewrite Hs.
  - by rewrite Hs.
Qed.

Lemma untouched_Write k data w : untouched k w (Write data w).
Proof.
  unfold Write, WriteHeader. destruct (rw_sent w) as [[c h]|] eqn:Hs; simpl.
  - rewrite Hs. destruct (bodyAllowedForStatus c); split; simpl; rewrite ?Hs; done.
  - split; simpl; [done|]. by rewrite Hs.
Qed.

Lemma untouched_Fprintln k s w : untouched k w (Fprintln s w).
Proof. apply untouched_Write. Qed.

(** Peels the calls on a response off a goal [untouched k w (f (g ... w))],
    last call first. *)
Ltac peel :=
  repeat first
    [ apply untouched_refl
    | eapply untouched_trans;
      [|first [ apply untouched_Fprintln | apply untouched_Write
              | apply untouched_WriteHeader
              | (apply untouched_SetHeader; done) ]] ].

Lemma untouched_Error k msg code w :
  k ≠ "Content-Type" → k ≠ "X-Content-Type-Options" → untouched k w (Error msg code w).
Proof. intros H1 H2. unfold Error. peel. Qed.

Lemma untouched_foldl_Write k chunks w :
  untouched k w (foldl (λ w c, Write c w) w chunks).
Proof.
  revert w. induction chunks as [|c chunks IH]; intros w; simpl.
  - apply untouched_refl.
  - eapply untouched_trans; [apply untouched_Write|apply IH].
Qed.

(** *** Late [WriteHeader] calls *)

Lemma superfluous_Write data w : rw_superfluous (Write data w) = rw_superfluous w.
Proof.
  unfold Write, WriteHeader. destruct (rw_sent w) as [[c h]|] eqn:Hs; simpl.
  - rewrite Hs. by destruct (bodyAllowedForStatus c).
  - by destruct (bodyAllowedForStatus 200).
Qed.

Lemma superfluous_foldl_Write chunks w :
  rw_superfluous (foldl (λ w c, Write c w) w chunks) = rw_superfluous w.
Proof.
  revert w. induction chunks as [|c chunks IH]; intros w; simpl; [done|].
  by rewrite IH, superfluous_Write.
Qed.

Lemma superfluous_WriteHeader code w :
  rw_sent w = None → rw_superfluous (WriteHeader code w) = rw_superfluous w.
Proof. intros Hs. unfold WriteHeader. by rewrite Hs. Qed.

Lemma superfluous_Error msg code w :
  rw_sent w = None → rw_superfluous (Error msg code w) = rw_superfluous w.
Proof.
  intros Hs. unfold Error, Fprintln.
  rewrite superfluous_Write, superfluous_WriteHeader; done.
Qed.

(** *** The multiplexer *)

Lemma mux_exact_elem (mux : ServeMux) path h :
  mux_exact mux path = Some h → ∃ p, (p, h) ∈ mux.
Proof.
  induction mux as [|[p h'] mux IH]; simpl; [done|].
  destruct (decide (p = path)).
  - intros [= ->]. exists p. left.
  - intros [q Hq]%IH. exists q. by right.
Qed.

Lemma mux_subtree_elem (mux : ServeMux) path best p h :
  mux_subtree mux path best = Some (p, h) → (p, h) ∈ mux ∨ best = Some (p, h).
Proof.
  revert best. induction mux as [|[q h'] mux IH]; intros best; simpl; [by right|].
  destruct (_ && _ && _).
  - intros [Hin|[= -> ->]]%IH; [left; by right|left; left].
  - intros [Hin|Hb]%IH; [left; by right|by right].
Qed.

Lemma mux_match_elem (mux : ServeMux) path h :
  mux_match mux path = Some h → ∃ p, (p, h) ∈ mux.
Proof.
  unfold mux_match. destruct (mux_exact mux path) as [h'|] eqn:He.
  - intros [= ->]. by eapply mux_exact_elem.
  - destruct (mux_subtree mux path None) as [[p h']|] eqn:Hs; simpl; [|done].
    intros [= ->]. apply mux_subtree_elem in Hs as [Hin|?]; [by exists p|done].
Qed.

Lemma quiet_NotFoundHandler : quiet NotFoundHandler.
Proof.
  intros r st. unfold NotFoundHandler; simpl.
  split; [by apply untouched_Error|split; [done|apply superfluous_Error]].
Qed.

Lemma quiet_Redirect location body code : quiet (Redirect location body code).
Proof.
  intros r st. unfold Redirect.
  destruct (negb _ && (_ || _)), (negb _ && bool_decide (Method r = "GET")); simpl.
  all: split; [|split; [done|intros Hs; unfold Fprintln;
         rewrite ?superfluous_Write, superfluous_WriteHeader; done]].
  all: peel.
Qed.

Lemma quiet_ServeMux redirect (mux : ServeMux) :
  (∀ p h, (p, h) ∈ mux → quiet h) → quiet (ServeMux_ServeHTTP redirect mux).
Proof.
  intros Hmux r st. unfold ServeMux_ServeHTTP.
  destruct (decide (RequestURI r = "*")).
  { destruct (ProtoAtLeast11 r); simpl.
    - split; [peel|split; [done|]].
      intros Hs. by rewrite superfluous_WriteHeader.
    - split; [apply untouched_WriteHeader|split; [done|]].
      apply superfluous_WriteHeader. }
  destruct (redirect _ _) as [[location body]|]; [apply quiet_Redirect|].
  destruct (mux_match mux (URL_Path r)) as [h|] eqn:Hm; [|apply quiet_NotFoundHandler].
  apply mux_match_elem in Hm as [p Hp]. by eapply Hmux.
Qed.

End GoFacts.

(** ** The correlation stage, the access-log stage and the registry *)

Module Middleware.
Import Go Main Stages GoFacts Examples.

Lemma quiet_healthHandler : quiet healthHandler.
Proof.
  intros r st. unfold healthHandler.
  destruct (decide _); simpl; (split; [apply untouched_WriteHeader|split; [done|]]);
    apply superfluous_WriteHeader.
Qed.

Lemma quiet_helloHandler : quiet helloHandler.
Proof.
  intros r st. unfold helloHandler; simpl.
  split; [apply untouched_Fprintln|split; [done|]].
  intros _. apply superfluous_Write.
Qed.

Lemma quiet_forceTextHandler : quiet forceTextHandler.
Proof.
  intros r st. unfold forceTextHandler; simpl. split; [|split; [done|]].
  - peel.
  - intros Hs. unfold Fprintln. rewrite superfluous_Write, superfluous_WriteHeader; done.
Qed.

Lemma quiet_indexHandler parse_index execute_index :
  quiet (indexHandler parse_index execute_index).
Proof.
  intros r st. unfold indexHandler.
  destruct (decide _) as [Hp|Hp]; simpl.
  { split; [by apply untouched_Error|split; [done|apply superfluous_Error]]. }
  destruct parse_index as [err|]; simpl.
  { split; [by apply untouched_Error|split; [done|apply superfluous_Error]]. }
  destruct (execute_index _ _) as [chunks [e|]]; simpl.
  - split; [apply untouched_foldl_Write|split; [apply log_calls_fmt_Println|]].
    intros _. apply superfluous_foldl_Write.
  - split; [apply untouched_foldl_Write|split; [done|]].
    intros _. apply superfluous_foldl_Write.
Qed.

Lemma nextRequestID_log_calls w : log_calls (nextRequestID w).2 = log_calls w.
Proof. done. Qed.

(** What [tracing] hands to the next handler. *)
Lemma tracing_unfold gen next r st :
  tracing gen next r st =
  next
    (WithContext r
       (WithValue (Ctx r) requestIDKey (AnyString (correlation_id gen r (world st)))))
    (with_rw (SetHeader "X-Request-Id" (correlation_id gen r (world st)))
       {| rw := rw st;
          world := if decide (Header_Get (Headers r) "X-Request-Id" = "")
                   then (gen (world st)).2 else world st |}).
Proof.
  unfold tracing, correlation_id.
  destruct (decide _); [by destruct (gen (world st))|by destruct st].
Qed.

(** What [logging] adds to the next handler. *)
Lemma logging_unfold lg next r st :
  logging lg next r st =
  ((next r st).1,
   with_world
     (Println lg
        (access_record
           (if negb (assert_string (Value (Ctx r) requestIDKey)).2 then "unknown"
            else (assert_string (Value (Ctx r) requestIDKey)).1) r))
     (next r st).2).
Proof.
  unfold logging, defer. destruct (next r st) as [o st'].
  by destruct (assert_string _).
Qed.

(** The two stages around a quiet handler, on a response that has not been
    started. *)
Lemma stages_spec gen lg next r st :
  quiet next →
  (∀ w, log_calls (gen w).2 = log_calls w) →
  rw_sent (rw st) = None →
  let id := correlation_id gen r (world st) in
  let res := tracing gen (logging lg next) r st in
  outbound_header (rw res.2) !! "X-Request-Id" = Some [id] ∧
  log_calls (world res.2) = log_calls (world st) ++ [(lg, access_record id r)] ∧
  rw_superfluous (rw res.2) = rw_superfluous (rw st).
Proof.
  intros Hq Hgen Hs id res. subst res. rewrite tracing_unfold, logging_unfold.
  fold id. set (r' := WithContext r _). set (st2 := with_rw _ _).
  destruct (Hq r' st2) as (Hu & Hl & Hsf). simpl in *.
  split; [|split].
  - apply untouched_outbound in Hu. rewrite Hu. unfold outbound_header. simpl.
    rewrite Hs. simpl. unfold Header_Set. by rewrite lookup_insert_eq.
  - rewrite log_calls_Println, Hl. destruct (decide _); [by rewrite Hgen|done].
  - by apply Hsf.
Qed.

Section Registry.

Variable parse_index : option string.
Variable execute_index : string → Z → list string * option string.
Variable redirect : string → string → option (string * string).

Lemma quiet_routes : quiet (ServeMux_ServeHTTP redirect (routes parse_index execute_index)).
Proof.
  apply quiet_ServeMux. intros p h Hin. unfold routes, HandleFunc, NewServeMux in Hin.
  simpl in Hin. repeat (apply elem_of_cons in Hin as [[= _ ->]|Hin]);
    [apply quiet_indexHandler|apply quiet_healthHandler|apply quiet_helloHandler
    |apply quiet_forceTextHandler|by apply elem_of_nil in Hin].
Qed.

(** The pipeline of [main] on a fresh response. *)
Lemma server_Handler_spec r w :
  let id := correlation_id nextRequestID r w in
  let res := server_Handler parse_index execute_index redirect r (fresh w) in
  outbound_header (rw res.2) !! "X-Request-Id" = Some [id] ∧
  log_calls (world res.2) = log_calls w ++ [(logger, access_record id r)] ∧
  rw_superfluous (rw res.2) = 0%nat.
Proof.
  apply (stages_spec nextRequestID logger _ r (fresh w)); [apply quiet_routes|done..].
Qed.

(** C1: for every request whose inbound X-Request-Id header is present and
    non-empty (its value, as [Header.Get] reads it, is not the empty
    string), the correlation stage uses that value verbatim: it is the
    value stored in the request context handed to the next handler and the
    value set on the response, the generator is not consulted, and at the
    end of the pipeline of [main] the X-Request-Id header that goes out
    holds exactly the inbound value. *)
Theorem tracing_pass_through gen next r st w :
  Header_Get (Headers r) "X-Request-Id" ≠ "" →
  let id := Header_Get (Headers r) "X-Request-Id" in
  tracing gen next r st =
    next (WithContext r (WithValue (Ctx r) requestIDKey (AnyString id)))
         (with_rw (SetHeader "X-Request-Id" id) st) ∧
  Value (WithValue (Ctx r) requestIDKey (AnyString id)) requestIDKey = AnyString id ∧
  outbound_header
    (rw (server_Handler parse_index execute_index redirect r (fresh w)).2)
    !! "X-Request-Id" = Some [id].
Proof.
  intros Hne id. split; [|split].
  - rewrite tracing_unfold. unfold correlation_id. fold id.
    rewrite !decide_False by done. by destruct st.
  - done.
  - destruct (server_Handler_spec r w) as (Hout & _ & _).
    rewrite Hout. unfold correlation_id. by rewrite decide_False.
Qed.

(** C2, as amended: for every request whose inbound X-Request-Id header is
    absent or empty, the X-Request-Id header that goes out is the decimal
    rendering of the clock reading taken while the request is served; it is
    non-empty, a decimal numeral and a valid header value.  Two such
    requests receive different ids whenever their clock readings differ. *)
Theorem generated_id_from_clock r1 r2 w1 w2 :
  Header_Get (Headers r1) "X-Request-Id" = "" →
  Header_Get (Headers r2) "X-Request-Id" = "" →
  let out1 :=
    outbound_header (rw (server_Handler parse_index execute_index redirect r1 (fresh w1)).2) in
  let out2 :=
    outbound_header (rw (server_Handler parse_index execute_index redirect r2 (fresh w2)).2) in
  out1 !! "X-Request-Id" = Some [Sprintf_d (now w1)] ∧
  out2 !! "X-Request-Id" = Some [Sprintf_d (now w2)] ∧
  Header_Get out1 "X-Request-Id" ≠ "" ∧
  is_decimal (Header_Get out1 "X-Request-Id") = true ∧
  ValidHeaderFieldValue (Header_Get out1 "X-Request-Id") = true ∧
  (now w1 ≠ now w2 → Header_Get out1 "X-Request-Id" ≠ Header_Get out2 "X-Request-Id").
Proof.
  intros H1 H2 out1 out2.
  assert (out1 !! "X-Request-Id" = Some [Sprintf_d (now w1)]) as E1.
  { destruct (server_Handler_spec r1 w1) as (Hout & _ & _). subst out1.
    rewrite Hout. unfold correlation_id. by rewrite decide_True. }
  assert (out2 !! "X-Request-Id" = Some [Sprintf_d (now w2)]) as E2.
  { destruct (server_Handler_spec r2 w2) as (Hout & _ & _). subst out2.
    rewrite Hout. unfold correlation_id. by rewrite decide_True. }
  unfold Header_Get. rewrite E1, E2. split_and!; try done.
  - apply Sprintf_d_nonempty.
  - apply Sprintf_d_decimal.
  - apply decimal_valid, Sprintf_d_decimal.
  - intros Hne Heq. by apply Hne, Sprintf_d_inj.
Qed.

(** C3: for every request served by the pipeline of [main] (correlation
    stage outermost, then the access-log stage, then the registry), the
    logger is called exactly once, with the access-log record of the
    request, and the correlation id in that record is the value of the
    X-Request-Id header that goes out; no [WriteHeader] call comes too
    late, so the server adds no line of its own to the log. *)
Theorem one_access_log_record r w :
  let id := correlation_id nextRequestID r w in
  let res := server_Handler parse_index execute_index redirect r (fresh w) in
  log_calls (world res.2) = log_calls w ++ [(logger, [id; Method r; URL_Path r; RemoteAddr r; UserAgent r])] ∧
  outbound_header (rw res.2) !! "X-Request-Id" = Some [id] ∧
  rw_superfluous (rw res.2) = 0%nat.
Proof.
  intros id res. destruct (server_Handler_spec r w) as (Hout & Hlog & Hsf).
  by split_and!.
Qed.

(** A request for [/health] reaches [healthHandler] through the pipeline. *)
Lemma health_endpoint r w :
  URL_Path r = "/health" → RequestURI r ≠ "*" →
  redirect (Method r) "/health" = None →
  let res := server_Handler parse_index execute_index redirect r (fresh w) in
  res.1 = Returned ∧
  outbound_status (rw res.2) =
    (if is_ready w then StatusNoContent else StatusServiceUnavailable) ∧
  rw_body (rw res.2) = [].
Proof.
  intros Hp Hu Hr res. subst res. unfold server_Handler.
  rewrite tracing_unfold, logging_unfold. unfold ServeMux_ServeHTTP. simpl.
  rewrite decide_False by done. rewrite Hp, Hr. simpl.
  unfold healthHandler, is_ready. simpl.
  destruct (decide (Header_Get (Headers r) "X-Request-Id" = ""));
    destruct (decide (healthy w = 1)); simpl;
    by rewrite ?bool_decide_true, ?bool_decide_false by done.
Qed.

End Registry.

(** C8: for every request, [healthHandler] answers with status 204 (no
    content) when the flag is ready and with status 503 (service
    unavailable) when it is not, on a response that has not been started;
    it returns, writes no body and leaves the process state as it is. *)
Theorem healthHandler_status r st :
  rw_sent (rw st) = None → rw_body (rw st) = [] →
  let res := healthHandler r st in
  res.1 = Returned ∧
  rw_sent (rw res.2) =
    Some (if is_ready (world st) then 204 else 503, rw_header (rw st)) ∧
  outbound_status (rw res.2) = (if is_ready (world st) then 204 else 503) ∧
  rw_body (rw res.2) = [] ∧
  world res.2 = world st.
Proof.
  intros Hs Hb res. subst res. unfold healthHandler, is_ready, outbound_status.
  destruct (decide (healthy (world st) = 1)) as [H|H]; simpl.
  - unfold WriteHeader. rewrite Hs. simpl. by rewrite bool_decide_true.
  - unfold WriteHeader. rewrite Hs. simpl. by rewrite bool_decide_false.
Qed.


(** C10: the middleware of [src/main.go] and the one of
    [src/unnamed/part_000] agree: for every id generator, logger, wrapped
    handler, request and state the two [tracing] stages make the same call
    of the wrapped handler (same context, same response header) and the
    two [logging] stages give the same result (same log record). *)
Theorem middleware_copies_agree gen lg next r st :
  Main.tracing gen next r st = Part000.tracing gen next r st ∧
  Main.logging lg next r st = Part000.logging lg next r st ∧
  Main.requestIDKey = Part000.requestIDKey.
Proof. done. Qed.

(** *** Witnesses and counterexamples *)

Lemma tracing_pass_through_witness :
  Header_Get (Headers req_tagged) "X-Request-Id" ≠ "" ∧
  outbound_header
    (rw (server_Handler parse_fails execute_nothing no_redirect req_tagged
           (fresh world0)).2)
    !! "X-Request-Id" = Some ["abc-123"].
Proof.
  assert (Header_Get (Headers req_tagged) "X-Request-Id" ≠ "") as H.
  { intros H. vm_compute in H. discriminate H. }
  split; [exact H|].
  exact (proj2 (proj2 (tracing_pass_through parse_fails execute_nothing no_redirect
                         nextRequestID healthHandler req_tagged (fresh world0) world0 H))).
Defined.

(** C2, as stated, fails: two different requests without the header that
    are served at one clock reading (the clock does not move while the
    first is served) receive the same generated id. *)
Lemma concurrent_ids_collide :
  Header_Get (Headers req_hello) "X-Request-Id" = "" ∧
  Header_Get (Headers req_health) "X-Request-Id" = "" ∧
  req_hello ≠ req_health ∧
  let st1 :=
    (server_Handler parse_fails execute_nothing no_redirect req_hello (fresh world0)).2 in
  let st2 :=
    (server_Handler parse_fails execute_nothing no_redirect req_health
       (fresh (world st1))).2 in
  Header_Get (outbound_header (rw st1)) "X-Request-Id" =
  Header_Get (outbound_header (rw st2)) "X-Request-Id".
Proof.
  split_and!.
  - by vm_compute.
  - by vm_compute.
  - intros H. apply (f_equal URL_Path) in H. discriminate H.
  - by vm_compute.
Qed.

Lemma generated_id_from_clock_witness :
  Header_Get (Headers req_hello) "X-Request-Id" = "" ∧
  Header_Get (Headers req_health) "X-Request-Id" = "" ∧
  now world0 ≠ now (set_now 1700000000000000001 world0) ∧
  Header_Get
    (outbound_header
       (rw (server_Handler parse_fails execute_nothing no_redirect req_hello
              (fresh world0)).2)) "X-Request-Id" ≠
  Header_Get
    (outbound_header
       (rw (server_Handler parse_fails execute_nothing no_redirect req_health
              (fresh (set_now 1700000000000000001 world0))).2)) "X-Request-Id".
Proof.
  assert (Header_Get (Headers req_hello) "X-Request-Id" = "") as H1 by reflexivity.
  assert (Header_Get (Headers req_health) "X-Request-Id" = "") as H2 by reflexivity.
  assert (now world0 ≠ now (set_now 1700000000000000001 world0)) as H3.
  { simpl. lia. }
  split; [exact H1|]. split; [exact H2|]. split; [exact H3|].
  destruct (generated_id_from_clock parse_fails execute_nothing no_redirect
              req_hello req_health world0 (set_now 1700000000000000001 world0) H1 H2)
    as (_ & _ & _ & _ & _ & Hdiff).
  exact (Hdiff H3).
Defined.

Lemma healthHandler_status_witness :
  rw_sent (rw (fresh world0)) = None ∧ rw_body (rw (fresh world0)) = [] ∧
  outbound_status (rw (healthHandler req_health (fresh world0)).2) = 204 ∧
  outbound_status
    (rw (healthHandler req_health (fresh (set_draining world0))).2) = 503.
Proof.
  split; [reflexivity|]. split; [reflexivity|]. split.
  - exact (proj1 (proj2 (proj2 (healthHandler_status req_health (fresh world0)
                                   eq_refl eq_refl)))).
  - exact (proj1 (proj2 (proj2 (healthHandler_status req_health
                                   (fresh (set_draining world0)) eq_refl eq_refl)))).
Defined.


End Middleware.

(** ** The liveness flag and the shutdown orchestration *)

Module Lifecycle.
Import Go Main Orchestrator Stages GoFacts Examples.

Lemma exec_snoc env sched a : exec env (sched ++ [a]) = step env (exec env sched) a.
Proof. unfold exec. by rewrite foldl_app. Qed.

Lemma exec_app env sched sched' :
  exec env (sched ++ sched') = foldl (step env) (exec env sched) sched'.
Proof. unfold exec. by rewrite foldl_app. Qed.

(** *** The order of events in a trace *)

Lemma precedes_nil a b : precedes a b [].
Proof. intros i Hi. by rewrite lookup_nil in Hi. Qed.

Lemma precedes_snoc a b tr e :
  precedes a b (tr ++ [e]) ↔ precedes a b tr ∧ (e = b → a ∈ tr).
Proof.
  split.
  - intros H. split.
    + intros i Hi. destruct (H i) as (j & Hj & Ha).
      { rewrite lookup_app_l; [done|]. by eapply lookup_lt_Some. }
      exists j. split; [done|].
      rewrite lookup_app_l in Ha; [done|].
      apply lookup_lt_Some in Hi. lia.
    + intros ->. destruct (H (length tr)) as (j & Hj & Ha).
      { by rewrite list_lookup_middle. }
      rewrite lookup_app_l in Ha by done. by eapply list_elem_of_lookup_2.
  - intros [H He] i Hi.
    destruct (decide (i < length tr)%nat) as [Hlt|Hge].
    + rewrite lookup_app_l in Hi by done.
      destruct (H i Hi) as (j & Hj & Ha). exists j. split; [done|].
      rewrite lookup_app_l; [done|lia].
    + rewrite lookup_app_r in Hi by lia.
      destruct (i - length tr)%nat as [|k] eqn:Hk; simpl in Hi; [|by destruct k].
      injection Hi as ->. pose proof (He eq_refl) as Hin.
      apply list_elem_of_lookup_1 in Hin as [j Hj].
      pose proof (lookup_lt_Some _ _ _ Hj) as Hlt.
      exists j. split; [lia|]. by rewrite lookup_app_l.
Qed.

Lemma precedes_elem a b tr : precedes a b tr → b ∈ tr → a ∈ tr.
Proof.
  intros H [i Hi]%list_elem_of_lookup_1. destruct (H i Hi) as (j & _ & Hj).
  by eapply list_elem_of_lookup_2.
Qed.

(** *** One step of an execution, case by case *)

Ltac proc_simpl :=
  cbn [trace p_world main_pc sig_pc notified quit server keepalives active
       shutdown_err done_closed exited emit on_world goto_main goto_sig
       set_notified set_quit set_server set_keepalives set_shutdown_err
       close_done exit log_Println log_Fatalf main_rank sig_rank] in *.

Ltac step_cases :=
  match goal with
  | |- context [step _ ?s ?a] =>
      unfold step, step_main, step_sig, deliver_signal, health_check;
      repeat case_match; proc_simpl
  end.

(** Rewrites with what the case says about the program points and decides
    the comparisons of ranks. *)
Ltac use_known :=
  repeat match goal with
  | H : _ ↔ _ |- _ => destruct H
  end;
  repeat match goal with
  | H : sig_pc _ = _ |- _ => rewrite H in *; clear H
  | H : main_pc _ = _ |- _ => rewrite H in *; clear H
  | H : quit _ = _ |- _ => rewrite H in *; clear H
  end;
  cbn [main_rank sig_rank Nat.ltb Nat.leb Is_true] in *;
  repeat match goal with
  | H : True → _ |- _ => specialize (H I)
  | H : _ ∨ True → _ |- _ => specialize (H (or_intror I))
  | H : True ∨ _ → _ |- _ => specialize (H (or_introl I))
  | H : sig_pc _ = _ |- _ => rewrite H in *; clear H;
      cbn [main_rank sig_rank Nat.ltb Nat.leb Is_true] in *
  end.

Ltac use_fields :=
  repeat match goal with
  | H : server _ = _ |- _ => rewrite H in *; clear H
  | H : done_closed _ = _ |- _ => rewrite H in *; clear H
  | H : notified _ = _ |- _ => rewrite H in *; clear H
  | H : shutdown_err _ = _ |- _ => rewrite H in *; clear H
  end.

(** Decides the equations between constructors, in the goal
    ([decide_events]) and in the hypotheses as well ([decide_eqs]). *)
Ltac decide_events :=
  repeat match goal with
  | |- context [@eq Event ?x ?y] =>
      first
        [ let E := fresh in
          assert (E : x = y ↔ True) by (split; [tauto|reflexivity]);
          rewrite E; clear E
        | let E := fresh in
          assert (E : x = y ↔ False) by (split; [discriminate|tauto]);
          rewrite E; clear E ]
  end.

Ltac decide_eqs :=
  repeat match goal with
  | |- context [?x = ?y] =>
      first
        [ let E := fresh in
          assert (E : x = y ↔ True) by (split; [tauto|reflexivity]);
          rewrite E; clear E
        | let E := fresh in
          assert (E : x = y ↔ False) by (split; [discriminate|tauto]);
          rewrite E; clear E ]
  | H : context [?x = ?y] |- _ =>
      first
        [ let E := fresh in
          assert (E : x = y ↔ True) by (split; [tauto|reflexivity]);
          rewrite E in H; clear E
        | let E := fresh in
          assert (E : x = y ↔ False) by (split; [discriminate|tauto]);
          rewrite E in H; clear E ]
  end.

Ltac head_of t := lazymatch t with ?f _ => head_of f | _ => t end.

(** Adds to the hypotheses, for every equation between two terms that
    begin with a constructor, whether it holds. *)
Ltac know x y :=
  let hx := head_of x in let hy := head_of y in
  is_constructor hx; is_constructor hy;
  lazymatch goal with
  | _ : x = y |- _ => fail
  | _ : x ≠ y |- _ => fail
  | _ => idtac
  end;
  first [ assert (x = y) by reflexivity | assert (x ≠ y) by discriminate ].

Ltac know_eqs :=
  repeat match goal with
  | |- context [?x = ?y] => know x y
  | H : context [?x = ?y] |- _ => know x y
  end.

Ltac rewrite_state :=
  repeat match goal with
  | H : bind_error _ = _ |- _ => rewrite H in *; clear H
  | H : exited _ = _ |- _ => rewrite H in *; clear H
  end.

Lemma healthy_probe r w :
  healthy (world (tracing nextRequestID (logging logger healthHandler) r
                    {| rw := newResponse; world := w |}).2) = healthy w.
Proof.
  unfold tracing, logging, defer, healthHandler, nextRequestID.
  destruct (decide (Header_Get (Headers r) "X-Request-Id" = "")); simpl;
    destruct (decide (healthy w = 1)); simpl; by rewrite healthy_Println.
Qed.

(** *** The invariants hold in every execution *)

Lemma positions_step env s a : Positions s → Positions (step env s a).
Proof.
  intros H. step_cases; try exact H.
  all: destruct H as [P1 P2 P3 P4 P5 P6].
  all: constructor; proc_simpl.
  all: rewrite ?elem_of_app, ?list_elem_of_singleton.
  all: use_known.
  all: decide_eqs; tauto.
Qed.

Lemma order_step env s a : Positions s → Order s → Order (step env s a).
Proof.
  intros HP H. step_cases; try exact H.
  all: destruct HP as [P1 P2 P3 P4 P5 P6], H as [O1 O2 O3 O4 O5].
  all: constructor; proc_simpl;
    try match goal with |- ∀ err : option string, _ => intros err end.
  all: rewrite ?precedes_snoc.
  all: use_known.
  all: repeat match goal with |- _ ∧ _ => split end; try done; try (by apply O4).
Qed.

Lemma flag_step env s a : Positions s → Flag s → Flag (step env s a).
Proof.
  intros HP H. step_cases; try exact H.
  all: destruct HP as [P1 P2 P3 P4 P5 P6], H as [F1 F2 F3].
  all: pose proof (precedes_elem (EvStoreHealthy 1) (EvStoreHealthy 0) (trace s)) as PE.
  all: constructor; proc_simpl.
  all: rewrite ?precedes_snoc, ?elem_of_app, ?list_elem_of_singleton.
  all: rewrite ?healthy_Println, ?healthy_Printf, ?healthy_probe.
  all: use_known.
  all: cbn [healthy set_ready set_draining set_now].
  all: clear P5.
  all: decide_events.
  all: tauto.
Qed.

Lemma outcome_step env s a : Positions s → Outcome s → Outcome (step env s a).
Proof.
  intros HP H. step_cases; try exact H.
  all: destruct HP as [P1 P2 P3 P4 P5 P6], H as [C1 C2 C3 C4 C5 C6 C7 C8].
  all: constructor; proc_simpl.
  all: rewrite ?elem_of_app, ?list_elem_of_singleton.
  all: clear P1 P2 P3 P4 P5.
  all: use_known; use_fields.
  all: decide_eqs.
  all: tauto.
Qed.

Lemma drained_step env s a : Positions s → Drained s → Drained (step env s a).
Proof.
  intros HP H. step_cases; try exact H.
  all: destruct HP as [_ _ _ _ _ P6].
  all: intros err; proc_simpl.
  all: rewrite ?elem_of_app, ?list_elem_of_singleton.
  all: intros Hin; destruct_or?; try discriminate.
  all: try (apply H in Hin as [Hr He]).
  all: use_known.
  all: try done.
  split; [done|]. generalize dependent (drain shutdownTimeout (active s)).
  intros d Hin. by injection Hin.
Qed.

Lemma fatal_step env s a : Positions s → Outcome s → Fatal s → Fatal (step env s a).
Proof.
  intros HP HO H. step_cases; try exact H.
  all: destruct HP as [_ _ _ _ _ P6], HO as [C1 C2 C3 C4 C5 C6 C7 C8].
  all: intros e; proc_simpl.
  all: rewrite ?elem_of_app, ?list_elem_of_singleton.
  all: intros Hpc Herr.
  all: try (by left).
  all: try discriminate.
  all: use_known; use_fields.
  all: try match goal with
         | E : Some _ = Some _ |- _ =>
             injection E as ->; right; split; [done|left; by right]
         end.
  all: decide_eqs; try tauto.
  destruct (main_pc s); cbn in *; tauto.
Qed.

Lemma invariants_initial env :
  Positions (initial env) ∧ Order (initial env) ∧ Flag (initial env) ∧
  Outcome (initial env) ∧ Drained (initial env) ∧ Fatal (initial env).
Proof.
  split_and!.
  - constructor; simpl; rewrite ?elem_of_nil; try done. intros [[]|[]].
  - constructor; intros; apply precedes_nil.
  - constructor; simpl; rewrite ?elem_of_nil; done.
  - constructor; simpl; rewrite ?elem_of_nil; done.
  - intros err; simpl; by rewrite elem_of_nil.
  - intros e; simpl; done.
Qed.

Lemma invariants_exec env sched :
  let s := exec env sched in
  Positions s ∧ Order s ∧ Flag s ∧ Outcome s ∧ Drained s ∧ Fatal s.
Proof.
  induction sched as [|a sched IH] using rev_ind.
  - apply invariants_initial.
  - rewrite exec_snoc. destruct IH as (HP & HO & HF & HC & HD & HX).
    split_and!.
    + by apply positions_step.
    + by apply order_step.
    + by apply flag_step.
    + by apply outcome_step.
    + by apply drained_step.
    + by apply fatal_step.
Qed.

(** *** The wait of [Shutdown] *)

Lemma forallb_idle_tick conns :
  forallb idle conns = true → forallb idle (map tick conns) = true.
Proof.
  induction conns as [|[[|n]|] conns IH]; simpl; try done.
Qed.

(** The wait ends without error exactly when every connection completes
    within the deadline. *)
Lemma drain_None_iff deadline conns :
  drain deadline conns = None ↔
  Forall (λ c, ∃ n, c = Some n ∧ (n ≤ deadline)%nat) conns.
Proof.
  revert conns. induction deadline as [|d IH]; intros conns; simpl.
  - destruct (forallb idle conns) eqn:Hall.
    + split; [intros _|done]. apply Forall_forall. intros c Hc.
      rewrite forallb_forall in Hall. apply list_elem_of_In, Hall in Hc.
      destruct c as [[|n]|]; try done. by exists 0%nat.
    + split; [done|]. intros HF. exfalso.
      assert (forallb idle conns = true); [|congruence].
      apply forallb_forall. intros c Hc%list_elem_of_In.
      rewrite Forall_forall in HF. destruct (HF c Hc) as (n & -> & Hn).
      by replace n with 0%nat by lia.
  - destruct (forallb idle conns) eqn:Hall.
    + split; [intros _|done]. apply Forall_forall. intros c Hc.
      rewrite forallb_forall in Hall. apply list_elem_of_In, Hall in Hc.
      destruct c as [[|n]|]; try done. exists 0%nat. split; [done|lia].
    + rewrite IH, Forall_fmap. apply Forall_iff. intros [[|n]|]; simpl.
      * split; intros _; exists 0%nat; (split; [done|lia]).
      * split; intros (m & [= <-] & Hm); [exists (S n)|exists n]; (split; [done|lia]).
      * split; intros (m & [=] & _).
Qed.

(** [Effects] holds in every execution. *)
Lemma effects_step env s a :
  Positions s → Effects env s → Effects env (step env s a).
Proof.
  intros HP H. step_cases; try exact H.
  all: destruct HP as [_ _ _ _ _ P6], H as [E1 E2 E3 E4].
  all: constructor; proc_simpl.
  all: use_known; use_fields.
  all: know_eqs.
  all: try tauto.
  all: try (split; [by intros ?%is_Some_None|tauto]).
  all: try (intros ?; by apply E3).
Qed.

Lemma effects_exec env sched : Effects env (exec env sched).
Proof.
  induction sched as [|a sched IH] using rev_ind.
  - constructor; simpl; try done; try tauto.
    all: first [by intros ?%is_Some_None | by left].
  - rewrite exec_snoc. apply effects_step; [|done].
    by destruct (invariants_exec env sched) as (HP & _).
Qed.

(** *** The claims *)

(** C4, as amended: [is_ready] is false in the initial state, true after
    [set_ready] and false after [set_draining]; the flag is a plain integer
    that every store overwrites.  In every execution of [main] in which the
    store of line 67 ([set_ready]) comes before the store of line 54
    ([set_draining]), [is_ready] is false until the first, true from the
    first to the second, and false from the second on, for the rest of the
    execution. *)
Theorem liveness_flag_follows_stores env sched :
  let s := exec env sched in
  precedes (EvStoreHealthy 1) (EvStoreHealthy 0) (trace s) →
  is_ready (p_world s) =
    bool_decide (EvStoreHealthy 1 ∈ trace s ∧ EvStoreHealthy 0 ∉ trace s) ∧
  is_ready (p_world (initial env)) = false ∧
  (∀ w, is_ready (set_ready w) = true ∧ is_ready (set_draining w) = false).
Proof.
  intros s Hord. split; [|done].
  destruct (invariants_exec env sched) as (_ & _ & [F1 F2 F3] & _).
  fold s in F1, F2, F3. unfold is_ready.
  destruct (decide (EvStoreHealthy 1 ∈ trace s)) as [H1|H1].
  - destruct (decide (EvStoreHealthy 0 ∈ trace s)) as [H0|H0].
    + rewrite (F3 H0 Hord). rewrite bool_decide_false by done.
      rewrite bool_decide_false; [done|]. by intros [_ ?].
    + rewrite (F2 H1 H0). rewrite bool_decide_true by done.
      by rewrite bool_decide_true.
  - rewrite (F1 H1). rewrite bool_decide_false by done.
    rewrite bool_decide_false; [done|]. by intros [? _].
Qed.



(** One step of the goroutine of the signal, from the receipt of the
    signal to the end of the wait: the label it leaves in the trace and
    what it does to the state. *)
Lemma sig_step env s :
  exited s = None →
  let s' := step env s RunSignalHandler in
  match sig_pc s with
  | GWaitQuit =>
      (0 < quit s)%nat →
      exited s' = None ∧ sig_pc s' = GLogShutdown ∧
      trace s' = trace s ++ [EvQuitReceived] ∧
      p_world s' = p_world s ∧ keepalives s' = keepalives s ∧
      server s' = server s ∧ active s' = active s ∧ shutdown_err s' = shutdown_err s
  | GLogShutdown =>
      exited s' = None ∧ sig_pc s' = GSetDraining ∧
      trace s' = trace s ++ [EvPrintln ["Server is shutting down..."]] ∧
      p_world s' = Println logger ["Server is shutting down..."] (p_world s) ∧
      keepalives s' = keepalives s ∧
      server s' = server s ∧ active s' = active s ∧ shutdown_err s' = shutdown_err s
  | GSetDraining =>
      exited s' = None ∧ sig_pc s' = GWithTimeout ∧
      trace s' = trace s ++ [EvStoreHealthy 0] ∧
      p_world s' = set_draining (p_world s) ∧ keepalives s' = keepalives s ∧
      server s' = server s ∧ active s' = active s ∧ shutdown_err s' = shutdown_err s
  | GWithTimeout =>
      exited s' = None ∧ sig_pc s' = GKeepAlives ∧
      trace s' = trace s ++ [EvWithTimeout shutdownTimeout] ∧
      p_world s' = p_world s ∧ keepalives s' = keepalives s ∧
      server s' = server s ∧ active s' = active s ∧ shutdown_err s' = shutdown_err s
  | GKeepAlives =>
      exited s' = None ∧ sig_pc s' = GShutdown ∧
      trace s' = trace s ++ [EvKeepAlivesOff] ∧
      p_world s' = p_world s ∧ keepalives s' = false ∧
      server s' = server s ∧ active s' = active s ∧ shutdown_err s' = shutdown_err s
  | GShutdown =>
      exited s' = None ∧ sig_pc s' = GDrain ∧
      trace s' = trace s ++ [EvShutdown] ∧
      p_world s' = p_world s ∧ keepalives s' = keepalives s ∧
      server s' = SrvClosed ∧
      active s' = match server s with SrvListening => inflight env | _ => [] end ∧
      shutdown_err s' = shutdown_err s
  | GDrain =>
      exited s' = None ∧ sig_pc s' = GCheck ∧
      trace s' = trace s ++ [EvDrained (drain shutdownTimeout (active s))] ∧
      p_world s' = p_world s ∧ keepalives s' = keepalives s ∧
      server s' = server s ∧ active s' = active s ∧
      shutdown_err s' = drain shutdownTimeout (active s)
  | _ => True
  end.
Proof.
  intros Hex s'. subst s'. unfold step, step_sig. rewrite Hex.
  destruct (sig_pc s); try exact I.
  - intros Hq. destruct (quit s); [lia|]. repeat split; exact Hex.
  - repeat split; exact Hex.
  - repeat split; exact Hex.
  - repeat split; exact Hex.
  - repeat split; exact Hex.
  - repeat split; exact Hex.
  - repeat split; exact Hex.
Qed.

(** Seven steps of the goroutine, from the waiting receive on. *)
Lemma seven_steps env s :
  exited s = None → sig_pc s = GWaitQuit → (0 < quit s)%nat →
  let run n := foldl (step env) s (replicate n RunSignalHandler) in
  let w := set_draining (Println logger ["Server is shutting down..."] (p_world s)) in
  let conns := match server s with SrvListening => inflight env | _ => [] end in
  trace (run 6%nat) =
    trace s ++
      [EvQuitReceived; EvPrintln ["Server is shutting down..."]; EvStoreHealthy 0;
       EvWithTimeout shutdownTimeout; EvKeepAlivesOff; EvShutdown] ∧
  (p_world (run 3%nat) = w ∧ keepalives (run 3%nat) = keepalives s ∧
   server (run 3%nat) = server s) ∧
  (p_world (run 5%nat) = w ∧ keepalives (run 5%nat) = false ∧
   server (run 5%nat) = server s ∧ shutdown_err (run 5%nat) = shutdown_err s) ∧
  (p_world (run 6%nat) = w ∧ keepalives (run 6%nat) = false ∧
   server (run 6%nat) = SrvClosed ∧ active (run 6%nat) = conns ∧
   shutdown_err (run 6%nat) = shutdown_err s) ∧
  (shutdown_err (run 7%nat) = drain shutdownTimeout conns ∧
   trace (run 7%nat) = trace (run 6%nat) ++ [EvDrained (drain shutdownTimeout conns)]).
Proof.
  intros Hex Hpc Hq run w conns. subst run w conns. cbn [replicate foldl].
  pose proof (sig_step env s Hex) as H1. cbv zeta in H1. rewrite Hpc in H1.
  destruct (H1 Hq) as (E1 & P1 & T1 & W1 & K1 & S1 & A1 & R1).
  pose proof (sig_step env _ E1) as H2. cbv zeta in H2. rewrite P1 in H2.
  destruct H2 as (E2 & P2 & T2 & W2 & K2 & S2 & A2 & R2).
  rewrite W1 in W2. rewrite K1 in K2. rewrite S1 in S2. rewrite A1 in A2. rewrite R1 in R2.
  pose proof (sig_step env _ E2) as H3. cbv zeta in H3. rewrite P2 in H3.
  destruct H3 as (E3 & P3 & T3 & W3 & K3 & S3 & A3 & R3).
  rewrite W2 in W3. rewrite K2 in K3. rewrite S2 in S3. rewrite A2 in A3. rewrite R2 in R3.
  pose proof (sig_step env _ E3) as H4. cbv zeta in H4. rewrite P3 in H4.
  destruct H4 as (E4 & P4 & T4 & W4 & K4 & S4 & A4 & R4).
  rewrite W3 in W4. rewrite K3 in K4. rewrite S3 in S4. rewrite A3 in A4. rewrite R3 in R4.
  pose proof (sig_step env _ E4) as H5. cbv zeta in H5. rewrite P4 in H5.
  destruct H5 as (E5 & P5 & T5 & W5 & K5 & S5 & A5 & R5).
  rewrite W4 in W5. rewrite S4 in S5. rewrite A4 in A5. rewrite R4 in R5.
  pose proof (sig_step env _ E5) as H6. cbv zeta in H6. rewrite P5 in H6.
  destruct H6 as (E6 & P6 & T6 & W6 & K6 & S6 & A6 & R6).
  rewrite W5 in W6. rewrite K5 in K6. rewrite S5 in A6. rewrite R5 in R6.
  pose proof (sig_step env _ E6) as H7. cbv zeta in H7. rewrite P6 in H7.
  destruct H7 as (E7 & P7 & T7 & W7 & K7 & S7 & A7 & R7).
  rewrite A6 in R7, T7.
  split.
  { rewrite T6, T5, T4, T3, T2, T1. rewrite <- !app_assoc. reflexivity. }
  split. { split; [exact W3|]. split; [exact K3|exact S3]. }
  split. { split; [exact W5|]. split; [exact K5|]. split; [exact S5|exact R5]. }
  split.
  { split; [exact W6|]. split; [exact K6|]. split; [exact S6|]. split; [exact A6|exact R6]. }
  split; [exact R7|exact T7].
Qed.

(** A step that leaves the draining store in the trace has stored 0. *)
Lemma store_draining_effect env s a :
  trace (step env s a) = trace s ++ [EvStoreHealthy 0] →
  is_ready (p_world (step env s a)) = false.
Proof.
  unfold step, step_main, step_sig, deliver_signal, health_check.
  repeat case_match; proc_simpl; intros Heq.
  all: try (exfalso; apply (f_equal length) in Heq; rewrite ?length_app in Heq;
            simpl in Heq; lia).
  all: try (apply app_inv_head in Heq; discriminate Heq).
  all: try (rewrite <- ?app_assoc in Heq; apply app_inv_head in Heq; discriminate Heq).
  all: reflexivity.
Qed.

(** C7: once a termination signal is in the channel and the goroutine of
    lines 51-64 waits for it, its next steps do, in this order: the receipt
    of the signal, the log line, the store that starts draining, the arming
    of the deadline, the switch that turns keep-alive off and the call of
    [Shutdown], which closes the listener and then begins the bounded wait.
    After the third step the flag is not ready while keep-alive is still on
    and the listener untouched; after the fifth keep-alive is off while the
    listener is untouched and the wait has no result; after the sixth the
    listener is closed and the connections in flight are handed to the
    wait, whose result the seventh step records.  In every execution the
    labels of these steps appear in this order, keep-alive is off exactly
    when its label is in the trace and the listener is closed by
    [Shutdown] exactly when its label is, keep-alive is off only after the
    draining store, the listener is closed only with keep-alive off, the
    wait has ended only with the listener closed, and a step that leaves
    the draining store in the trace leaves the flag not ready. *)
Theorem shutdown_steps_in_order env sched :
  let s := exec env sched in
  exited s = None → sig_pc s = GWaitQuit → (0 < quit s)%nat →
  let after n := exec env (sched ++ replicate n RunSignalHandler) in
  let conns := match server s with SrvListening => inflight env | _ => [] end in
  trace (after 6%nat) =
    trace s ++
      [EvQuitReceived; EvPrintln ["Server is shutting down..."]; EvStoreHealthy 0;
       EvWithTimeout shutdownTimeout; EvKeepAlivesOff; EvShutdown] ∧
  (is_ready (p_world (after 3%nat)) = false ∧ keepalives (after 3%nat) = true ∧
   server (after 3%nat) = server s ∧ server s ≠ SrvClosed) ∧
  (is_ready (p_world (after 5%nat)) = false ∧ keepalives (after 5%nat) = false ∧
   server (after 5%nat) = server s ∧ shutdown_err (after 5%nat) = None) ∧
  (is_ready (p_world (after 6%nat)) = false ∧ keepalives (after 6%nat) = false ∧
   server (after 6%nat) = SrvClosed ∧ active (after 6%nat) = conns ∧
   shutdown_err (after 6%nat) = None) ∧
  (shutdown_err (after 7%nat) = drain shutdownTimeout conns ∧
   trace (after 7%nat) = trace (after 6%nat) ++ [EvDrained (drain shutdownTimeout conns)]) ∧
  (∀ sched',
     let s' := exec env sched' in
     let tr := trace s' in
     precedes EvSignal (EvStoreHealthy 0) tr ∧
     precedes (EvStoreHealthy 0) EvKeepAlivesOff tr ∧
     precedes EvKeepAlivesOff EvShutdown tr ∧
     (∀ err, precedes EvShutdown (EvDrained err) tr) ∧
     (keepalives s' = false ↔ EvKeepAlivesOff ∈ tr) ∧
     (server s' = SrvClosed ↔ EvShutdown ∈ tr) ∧
     (keepalives s' = false → EvStoreHealthy 0 ∈ tr) ∧
     (server s' = SrvClosed → keepalives s' = false) ∧
     (∀ err, EvDrained err ∈ tr →
        shutdown_err s' = err ∧ server s' = SrvClosed ∧ keepalives s' = false) ∧
     (∀ a, trace (exec env (sched' ++ [a])) = tr ++ [EvStoreHealthy 0] →
        is_ready (p_world (exec env (sched' ++ [a]))) = false)).
Proof.
  intros s Hex Hpc Hq after conns.
  destruct (effects_exec env sched) as [F1 F2 F3 F4]. fold s in F1, F2, F3, F4.
  rewrite Hpc in F1, F2, F3. cbn in F1, F2, F3.
  assert (keepalives s = true) as Hk by (destruct (keepalives s); tauto).
  assert (shutdown_err s = None) as He.
  { destruct (shutdown_err s) eqn:E; [|done]. destruct F3. by eexists. }
  assert (server s ≠ SrvClosed) as Hs by tauto.
  pose proof (seven_steps env s Hex Hpc Hq)
    as (T6 & (W3 & K3 & S3) & (W5 & K5 & S5 & R5) & (W6 & K6 & S6 & A6 & R6) & (R7 & T7)).
  subst after. cbv beta. rewrite !exec_app. fold s.
  split; [exact T6|].
  split. { rewrite W3, K3, S3. split; [reflexivity|]. split; [exact Hk|]. split; [reflexivity|exact Hs]. }
  split. { rewrite W5, K5, S5, R5. split; [reflexivity|]. split; [reflexivity|]. split; [reflexivity|exact He]. }
  split.
  { rewrite W6, K6, S6, A6, R6. split; [reflexivity|]. split; [reflexivity|].
    split; [reflexivity|]. split; [reflexivity|exact He]. }
  split. { split; [exact R7|exact T7]. }
  intros sched' s' tr. subst tr.
  destruct (invariants_exec env sched') as ([_ P2 P3 P4 _ _] & [O1 O2 O3 O4 O5] & _ & _ & HD & _).
  destruct (effects_exec env sched') as [G1 G2 G3 G4].
  fold s' in P2, P3, P4, O1, O2, O3, O4, HD, G1, G2, G3, G4.
  split; [exact O1|]. split; [exact O2|]. split; [exact O3|]. split; [exact O4|].
  split; [by rewrite G1, P3|]. split; [by rewrite G2, P4|].
  split.
  { intros Hoff. apply (precedes_elem _ _ _ O2). by apply P3, G1. }
  split.
  { intros Hc. apply G1. apply G2 in Hc. by destruct (sig_pc s'). }
  split.
  { intros err Hin. destruct (HD err Hin) as [Hr Herr]. split; [done|].
    split; [apply G2|apply G1]; by destruct (sig_pc s'). }
  intros a Heq. rewrite exec_snoc in *. by apply store_draining_effect.
Qed.

(** The check [precedesb] decides [precedes]. *)
Lemma precedesb_lookup a b seen tr :
  precedesb a b seen tr = true →
  ∀ i, tr !! i = Some b → seen = true ∨ ∃ j, (j < i)%nat ∧ tr !! j = Some a.
Proof.
  revert seen. induction tr as [|e tr IH]; intros seen H i Hi; [done|].
  simpl in H. apply andb_prop in H as [Hb Hrest].
  destruct i as [|i]; simpl in Hi.
  - injection Hi as ->. rewrite decide_True in Hb by done. by left.
  - destruct (IH _ Hrest i Hi) as [Hseen|(j & Hj & Ha)].
    + apply orb_prop in Hseen as [Hseen|He]; [by left|].
      apply bool_decide_eq_true in He as ->. right. exists 0%nat. split; [lia|done].
    + right. exists (S j). split; [lia|done].
Qed.

Lemma precedesb_complete a b seen tr :
  (∀ i, tr !! i = Some b → seen = true ∨ ∃ j, (j < i)%nat ∧ tr !! j = Some a) →
  precedesb a b seen tr = true.
Proof.
  revert seen. induction tr as [|e tr IH]; intros seen H; [done|].
  simpl. apply andb_true_intro. split.
  - destruct (decide (e = b)) as [->|]; [|done].
    destruct (H 0%nat eq_refl) as [Hs|(j & Hj & _)]; [done|lia].
  - apply IH. intros i Hi. destruct (H (S i) Hi) as [->|(j & Hj & Ha)]; [by left|].
    destruct j as [|j]; simpl in Ha.
    + injection Ha as ->. left. rewrite bool_decide_true by done. apply orb_true_r.
    + right. exists j. split; [lia|done].
Qed.

Lemma precedesb_spec a b tr : precedes a b tr ↔ precedesb a b false tr = true.
Proof.
  split.
  - intros H. apply precedesb_complete. intros i Hi. right. by apply H.
  - intros H i Hi. by destruct (precedesb_lookup _ _ _ _ H i Hi).
Qed.

(** *** Witnesses and counterexamples *)

(** C4, as stated, fails.  On the flag alone, a [set_ready] after a
    [set_draining] makes it ready again.  In [main], a signal that arrives
    after [signal.Notify] and before line 67 lets the goroutine store 0
    first; [main] then stores 1 and binds the socket, and a health check
    is answered with 204 although draining has begun. *)
Lemma flag_returns_to_ready :
  is_ready (apply_ops [SetDraining; SetReady] world0) = true ∧
  trace (exec env_quick early_signal) =
    [EvNotify; EvSpawn; EvSignal; EvQuitReceived;
     EvPrintln ["Server is shutting down..."]; EvStoreHealthy 0;
     EvPrintln ["Server is ready to handle requests at"; ":9000"];
     EvStoreHealthy 1; EvBind; EvHealthCheck 204] ∧
  is_ready (p_world (exec env_quick early_signal)) = true.
Proof. repeat match goal with |- _ ∧ _ => split end; vm_compute; reflexivity. Qed.

Lemma liveness_flag_follows_stores_witness :
  precedes (EvStoreHealthy 1) (EvStoreHealthy 0) (trace (exec env_quick graceful)) ∧
  is_ready (p_world (exec env_quick graceful)) = false.
Proof.
  assert (precedes (EvStoreHealthy 1) (EvStoreHealthy 0)
            (trace (exec env_quick graceful))) as H.
  { apply precedesb_spec. vm_compute. reflexivity. }
  split; [exact H|].
  exact (proj1 (liveness_flag_follows_stores env_quick graceful H)).
Defined.




Lemma shutdown_steps_in_order_witness :
  exited (exec env_quick (startup ++ [Signal])) = None ∧
  sig_pc (exec env_quick (startup ++ [Signal])) = GWaitQuit ∧
  (0 < quit (exec env_quick (startup ++ [Signal])))%nat ∧
  is_ready (p_world (exec env_quick (startup ++ [Signal]))) = true ∧
  is_ready
    (p_world (exec env_quick ((startup ++ [Signal]) ++ replicate 3 RunSignalHandler))) =
    false ∧
  keepalives (exec env_quick ((startup ++ [Signal]) ++ replicate 3 RunSignalHandler)) =
    true ∧
  keepalives (exec env_quick ((startup ++ [Signal]) ++ replicate 5 RunSignalHandler)) =
    false ∧
  server (exec env_quick ((startup ++ [Signal]) ++ replicate 6 RunSignalHandler)) =
    SrvClosed ∧
  trace (exec env_quick ((startup ++ [Signal]) ++ replicate 6 RunSignalHandler)) =
    trace (exec env_quick (startup ++ [Signal])) ++
      [EvQuitReceived; EvPrintln ["Server is shutting down..."]; EvStoreHealthy 0;
       EvWithTimeout shutdownTimeout; EvKeepAlivesOff; EvShutdown].
Proof.
  assert (exited (exec env_quick (startup ++ [Signal])) = None) as H1.
  { vm_compute. reflexivity. }
  assert (sig_pc (exec env_quick (startup ++ [Signal])) = GWaitQuit) as H2.
  { vm_compute. reflexivity. }
  assert (0 < quit (exec env_quick (startup ++ [Signal])))%nat as H3.
  { vm_compute. lia. }
  assert (is_ready (p_world (exec env_quick (startup ++ [Signal]))) = true) as H4.
  { vm_compute. reflexivity. }
  split; [exact H1|]. split; [exact H2|]. split; [exact H3|]. split; [exact H4|].
  pose proof (shutdown_steps_in_order env_quick (startup ++ [Signal]) H1 H2 H3)
    as (T6 & (R3 & K3 & _) & (_ & K5 & _) & (_ & _ & S6 & _) & _).
  split; [exact R3|]. split; [exact K3|]. split; [exact K5|]. split; [exact S6|exact T6].
Defined.

End Lifecycle.

(** ** The registry and the handlers behind the two stages *)

Module Handlers.
Import Go Main Stages GoFacts Examples Middleware.

Section Registry.

Variable parse_index : option string.
Variable execute_index : string → Z → list string * option string.
Variable redirect : string → string → option (string * string).

Lemma mux_match_routes path :
  mux_match (routes parse_index execute_index) path =
    if decide (path = "/") then Some (indexHandler parse_index execute_index)
    else if decide (path = "/health") then Some healthHandler
    else if decide (path = "/hello") then Some helloHandler
    else if decide (path = "/json-as-text") then Some forceTextHandler
    else if String.prefix "/" path then Some (indexHandler parse_index execute_index)
    else None.
Proof.
  unfold mux_match, routes, HandleFunc, NewServeMux. simpl.
  repeat (destruct (decide (_ = path)) as [<-|?]; [done|]).
  rewrite !decide_False by done.
  by destruct (String.prefix "/" path).
Qed.

(** The handler the multiplexer of [routes] calls for a clean path. *)
Lemma ServeHTTP_routes r st :
  RequestURI r ≠ "*" → redirect (Method r) (URL_Path r) = None →
  ServeMux_ServeHTTP redirect (routes parse_index execute_index) r st =
    (if decide (URL_Path r = "/health") then healthHandler
     else if decide (URL_Path r = "/hello") then helloHandler
     else if decide (URL_Path r = "/json-as-text") then forceTextHandler
     else if String.prefix "/" (URL_Path r) then indexHandler parse_index execute_index
     else NotFoundHandler) r st.
Proof.
  intros Hu Hr. unfold ServeMux_ServeHTTP.
  rewrite decide_False by done. rewrite Hr, mux_match_routes.
  destruct (decide (URL_Path r = "/")) as [E|?].
  { rewrite E. done. }
  repeat (destruct (decide _); [done|]).
  by destruct (String.prefix "/" (URL_Path r)).
Qed.

(** X1: the table of [routes].  A request with a clean path is served by
    [healthHandler], [helloHandler] or [forceTextHandler] when its path is
    exactly "/health", "/hello" or "/json-as-text"; every other path that
    begins with a slash falls to [indexHandler], the handler of the
    pattern "/"; a path without a leading slash gets the answer of the
    multiplexer itself. *)
Theorem routes_dispatch r st :
  RequestURI r ≠ "*" → redirect (Method r) (URL_Path r) = None →
  let serve := ServeMux_ServeHTTP redirect (routes parse_index execute_index) in
  (URL_Path r = "/health" → serve r st = healthHandler r st) ∧
  (URL_Path r = "/hello" → serve r st = helloHandler r st) ∧
  (URL_Path r = "/json-as-text" → serve r st = forceTextHandler r st) ∧
  (URL_Path r ∉ ["/health"; "/hello"; "/json-as-text"] →
   String.prefix "/" (URL_Path r) = true →
   serve r st = indexHandler parse_index execute_index r st) ∧
  (String.prefix "/" (URL_Path r) = false → serve r st = NotFoundHandler r st).
Proof.
  intros Hu Hr serve. subst serve. rewrite ServeHTTP_routes by done.
  split_and!.
  - intros ->. done.
  - intros ->. done.
  - intros ->. done.
  - intros Hp Hpre. rewrite !not_elem_of_cons in Hp. destruct Hp as (H1 & H2 & H3 & _).
    rewrite !decide_False by done. by rewrite Hpre.
  - intros Hpre. repeat (destruct (decide _) as [E|?]; [by rewrite E in Hpre|]).
    by rewrite Hpre.
Qed.

(** [http.Error] on a response that has not been started. *)
Lemma Error_unsent msg code w :
  rw_sent w = None →
  Error msg code w =
    {| rw_header :=
         Header_Set (Header_Set (rw_header w) "Content-Type" "text/plain; charset=utf-8")
           "X-Content-Type-Options" "nosniff";
       rw_sent :=
         Some (code,
               Header_Set (Header_Set (rw_header w) "Content-Type" "text/plain; charset=utf-8")
                 "X-Content-Type-Options" "nosniff");
       rw_body := if bodyAllowedForStatus code then rw_body w ++ [Sprintln [msg]] else rw_body w;
       rw_superfluous := rw_superfluous w |}.
Proof.
  intros Hs. unfold Error, Fprintln, Write, WriteHeader. simpl. rewrite Hs. simpl.
  by destruct (bodyAllowedForStatus code).
Qed.



(** X3: when the inline template does not parse, the index page is
    answered with status 500 and the content type of plain text; the text
    of the error is the body the client receives, except for a HEAD
    request, whose answer has no body.  The template is not executed and
    the process state stays as it is. *)
Theorem index_parse_error r st err :
  URL_Path r = "/" → parse_index = Some err →
  rw_sent (rw st) = None → rw_body (rw st) = [] →
  let res := indexHandler parse_index execute_index r st in
  res.1 = Returned ∧
  outbound_status (rw res.2) = 500 ∧
  outbound_header (rw res.2) !! "Content-Type" = Some ["text/plain; charset=utf-8"] ∧
  outbound_body (Method r) (rw res.2) =
    (if bool_decide (Method r = "HEAD") then [] else [Sprintln [err]]) ∧
  world res.2 = world st.
Proof.
  intros Hp Hparse Hs Hb res. subst res. unfold indexHandler, outbound_body.
  rewrite decide_False by (by intros []). rewrite Hparse. simpl.
  rewrite Error_unsent by done. unfold outbound_status, outbound_header. simpl.
  rewrite Hb. unfold Header_Set. split_and!; try done.
  by rewrite lookup_insert_ne, lookup_insert_eq.
Qed.


(** X5: the answer to a request for [/json-as-text], through the whole
    pipeline: status 200, and among the headers the content type of plain
    text, the no-sniff option and the correlation id, with these values.
    The body the client receives is the JSON line, and nothing for a HEAD
    request. *)
Theorem json_as_text_response r w :
  URL_Path r = "/json-as-text" → RequestURI r ≠ "*" →
  redirect (Method r) "/json-as-text" = None →
  let id := correlation_id nextRequestID r w in
  let res := server_Handler parse_index execute_index redirect r (fresh w) in
  res.1 = Returned ∧
  outbound_status (rw res.2) = 200 ∧
  outbound_header (rw res.2) !! "Content-Type" = Some ["text/plain; charset=utf-8"] ∧
  outbound_header (rw res.2) !! "X-Content-Type-Options" = Some ["nosniff"] ∧
  outbound_header (rw res.2) !! "X-Request-Id" = Some [id] ∧
  outbound_body (Method r) (rw res.2) =
    (if bool_decide (Method r = "HEAD") then [] else [Sprintln [status_ok_json]]).
Proof.
  intros Hp Hu Hr id res. subst res. unfold server_Handler.
  rewrite tracing_unfold, logging_unfold. fold id.
  rewrite ServeHTTP_routes by (simpl; by rewrite ?Hp).
  simpl. rewrite Hp. simpl. done.
Qed.

(** X6: the answer to a request for [/hello], through the whole pipeline:
    status 200 and the correlation id among the headers.  The body the
    client receives is the greeting, and nothing for a HEAD request. *)
Theorem hello_response r w :
  URL_Path r = "/hello" → RequestURI r ≠ "*" →
  redirect (Method r) "/hello" = None →
  let id := correlation_id nextRequestID r w in
  let res := server_Handler parse_index execute_index redirect r (fresh w) in
  res.1 = Returned ∧
  outbound_status (rw res.2) = 200 ∧
  outbound_header (rw res.2) !! "X-Request-Id" = Some [id] ∧
  outbound_body (Method r) (rw res.2) =
    (if bool_decide (Method r = "HEAD") then [] else [Sprintln ["Hello, World!"]]).
Proof.
  intros Hp Hu Hr id res. subst res. unfold server_Handler.
  rewrite tracing_unfold, logging_unfold. fold id.
  rewrite ServeHTTP_routes by (simpl; by rewrite ?Hp).
  simpl. rewrite Hp. simpl. done.
Qed.

(** X7: a request for [/health], through the whole pipeline, is served by
    the two stages around [healthHandler]: status 204 when the flag is
    ready and 503 when it is not, the correlation id among the headers,
    and no body, whatever the method. *)
Theorem health_response r w :
  URL_Path r = "/health" → RequestURI r ≠ "*" →
  redirect (Method r) "/health" = None →
  let id := correlation_id nextRequestID r w in
  let res := server_Handler parse_index execute_index redirect r (fresh w) in
  res = tracing nextRequestID (logging logger healthHandler) r (fresh w) ∧
  res.1 = Returned ∧
  outbound_status (rw res.2) = (if is_ready w then 204 else 503) ∧
  outbound_header (rw res.2) !! "X-Request-Id" = Some [id] ∧
  outbound_body (Method r) (rw res.2) = [].
Proof.
  intros Hp Hu Hr id res. subst res. unfold server_Handler.
  rewrite !tracing_unfold, !logging_unfold. fold id.
  rewrite ServeHTTP_routes by (simpl; by rewrite ?Hp).
  simpl. rewrite Hp. simpl. split; [done|].
  unfold healthHandler, is_ready, outbound_body, outbound_status, outbound_header. simpl.
  destruct (decide (Header_Get (Headers r) "X-Request-Id" = ""));
    destruct (decide (healthy w = 1)); simpl;
    rewrite ?bool_decide_true, ?bool_decide_false by done;
    split_and!; try done; by destruct (bool_decide (Method r = "HEAD")).
Qed.

(** No answer of the multiplexer of [routes] touches the liveness flag. *)
Lemma healthy_routes r st :
  healthy (world (ServeMux_ServeHTTP redirect (routes parse_index execute_index) r st).2) =
  healthy (world st).
Proof.
  unfold ServeMux_ServeHTTP.
  destruct (decide (RequestURI r = "*")).
  { by destruct (ProtoAtLeast11 r). }
  destruct (redirect (Method r) (URL_Path r)) as [[l b]|].
  { unfold Redirect. repeat case_match; done. }
  rewrite mux_match_routes.
  repeat (destruct (decide (URL_Path r = _)); [|idtac]);
    try destruct (String.prefix "/" (URL_Path r));
    unfold indexHandler, healthHandler, helloHandler, forceTextHandler, NotFoundHandler;
    repeat case_match; simpl; try done.
  all: unfold fmt_Println, write_line; by destruct (stdout_ok _).
Qed.

(** X8: serving a request never changes the liveness flag, whatever the
    request, its path and the template engine: after the pipeline of
    [main] the flag has the value it had before. *)
Theorem requests_keep_flag r w :
  let res := server_Handler parse_index execute_index redirect r (fresh w) in
  healthy (world res.2) = healthy w ∧ is_ready (world res.2) = is_ready w.
Proof.
  intros res. subst res.
  assert (healthy (world (server_Handler parse_index execute_index redirect r (fresh w)).2) =
          healthy w) as H.
  { unfold server_Handler. rewrite tracing_unfold, logging_unfold. simpl.
    rewrite healthy_Println, healthy_routes. simpl. by destruct (decide _). }
  split; [done|]. unfold is_ready. by rewrite H.
Qed.

End Registry.

(** X9: [tracing] changes nothing of the request but the value under
    [requestIDKey] in its context, and nothing of the response but the
    X-Request-Id header: every other context value, the method, the path,
    the remote address and the headers of the request, the status, the body
    and every other response header reach the next handler as they came. *)
Theorem tracing_frame gen next r st :
  let id := correlation_id gen r (world st) in
  ∃ r' st',
    tracing gen next r st = next r' st' ∧
    Value (Ctx r') requestIDKey = AnyString id ∧
    (∀ k, k ≠ requestIDKey → Value (Ctx r') k = Value (Ctx r) k) ∧
    (Method r', RequestURI r', URL_Path r', RemoteAddr r', ProtoAtLeast11 r', Headers r') =
      (Method r, RequestURI r, URL_Path r, RemoteAddr r, ProtoAtLeast11 r, Headers r) ∧
    rw_header (rw st') !! "X-Request-Id" = Some [id] ∧
    (∀ k, k ≠ "X-Request-Id" → rw_header (rw st') !! k = rw_header (rw st) !! k) ∧
    (rw_sent (rw st'), rw_body (rw st'), rw_superfluous (rw st')) =
      (rw_sent (rw st), rw_body (rw st), rw_superfluous (rw st)).
Proof.
  intros id. eexists _, _. split; [apply tracing_unfold|]. fold id. simpl.
  split_and!; try done.
  - intros k Hk. by rewrite decide_False.
  - unfold Header_Set. by rewrite lookup_insert_eq.
  - intros k Hk. unfold Header_Set. by rewrite lookup_insert_ne.
Qed.

(** X10: the two stages around any handler, also one that panics or rewrites
    the response: the deferred log call still runs, after whatever the
    handler logged, its record carries the id the correlation stage chose,
    and the outcome and the response of the handler pass through
    unchanged. *)
Theorem stages_around_any_handler gen lg next r st :
  let id := correlation_id gen r (world st) in
  ∃ r' st',
    Value (Ctx r') requestIDKey = AnyString id ∧
    rw_header (rw st') !! "X-Request-Id" = Some [id] ∧
    tracing gen (logging lg next) r st =
      ((next r' st').1, with_world (Println lg (access_record id r)) (next r' st').2) ∧
    (tracing gen (logging lg next) r st).1 = (next r' st').1 ∧
    rw (tracing gen (logging lg next) r st).2 = rw (next r' st').2 ∧
    log_calls (world (tracing gen (logging lg next) r st).2) =
      log_calls (world (next r' st').2) ++ [(lg, access_record id r)].
Proof.
  intros id.
  exists (WithContext r (WithValue (Ctx r) requestIDKey (AnyString id))).
  exists (with_rw (SetHeader "X-Request-Id" id)
            {| rw := rw st;
               world := if decide (Header_Get (Headers r) "X-Request-Id" = "")
                        then (gen (world st)).2 else world st |}).
  rewrite tracing_unfold, logging_unfold. fold id.
  split; [done|]. split; [apply lookup_insert_eq|]. simpl.
  split; [done|]. split; [done|]. split; [done|]. apply log_calls_Println.
Qed.

(** X11: composed the other way round, the access log loses the id.  When
    [logging] wraps [tracing], a request that carries an id in its header
    and none in its context is logged as "unknown", while the response
    header still carries the id. *)
Theorem logging_outside_tracing gen lg next r st :
  Header_Get (Headers r) "X-Request-Id" ≠ "" →
  (assert_string (Value (Ctx r) requestIDKey)).2 = false →
  quiet next → rw_sent (rw st) = None →
  let res := logging lg (tracing gen next) r st in
  outbound_header (rw res.2) !! "X-Request-Id" = Some [Header_Get (Headers r) "X-Request-Id"] ∧
  ∃ before,
    log_calls (world res.2) =
      before ++ [(lg, ["unknown"; Method r; URL_Path r; RemoteAddr r; UserAgent r])].
Proof.
  intros Hid Hctx Hq Hs res. subst res. rewrite logging_unfold, Hctx. simpl.
  rewrite tracing_unfold. unfold correlation_id. rewrite !decide_False by done.
  set (r' := WithContext r _). set (st' := with_rw _ _).
  destruct (Hq r' st') as (Hu & _ & _). split.
  - apply untouched_outbound in Hu. rewrite Hu. unfold outbound_header. simpl.
    rewrite Hs. unfold Header_Set. by rewrite lookup_insert_eq.
  - eexists. apply log_calls_Println.
Qed.

(** The registry of [part_000]. *)
Lemma mux_match_setupRoutes pp ep path :
  mux_match (Part000.setupRoutes pp ep) path =
    if decide (path = "/") then Some (Part000.indexHandler pp ep)
    else if decide (path = "/hello") then Some Part000.helloHandler
    else if String.prefix "/" path then Some (Part000.indexHandler pp ep)
    else None.
Proof.
  unfold mux_match, Part000.setupRoutes, HandleFunc, NewServeMux. simpl.
  repeat (destruct (decide (_ = path)) as [<-|?]; [done|]).
  rewrite !decide_False by done.
  by destruct (String.prefix "/" path).
Qed.

(** X12: the handler chain of [part_000] (line 22 of that file) and the
    handler chain of [main.go] (line 40) compute the same on every request
    whose path is none of "/", "/health" and "/json-as-text", whatever
    their two templates do: same outcome, same response, same log.  (The
    two servers are not alike: their timeouts differ.) *)
Theorem handler_chains_agree pm em pp ep redirect r st :
  URL_Path r ∉ ["/"; "/health"; "/json-as-text"] →
  Main.server_Handler pm em redirect r st = Part000.server_Handler pp ep redirect r st.
Proof.
  intros Hp. rewrite !not_elem_of_cons in Hp. destruct Hp as (H1 & H2 & H3 & _).
  unfold Main.server_Handler, Part000.server_Handler.
  change Part000.tracing with Main.tracing. change Part000.logging with Main.logging.
  change Part000.nextRequestID with Main.nextRequestID.
  change Part000.logger with Main.logger.
  rewrite !tracing_unfold, !logging_unfold.
  match goal with
  | |- context [ServeMux_ServeHTTP redirect (routes pm em) ?r' ?st'] =>
      assert (ServeMux_ServeHTTP redirect (routes pm em) r' st' =
              ServeMux_ServeHTTP redirect (Part000.setupRoutes pp ep) r' st') as ->;
        [|done]
  end.
  unfold ServeMux_ServeHTTP. simpl.
  destruct (decide (RequestURI r = "*")); [reflexivity|].
  destruct (redirect (Method r) (URL_Path r)) as [[l b]|]; [reflexivity|].
  rewrite mux_match_routes, mux_match_setupRoutes.
  destruct (decide (URL_Path r = "/")); [done|].
  destruct (decide (URL_Path r = "/health")); [done|].
  destruct (decide (URL_Path r = "/hello")); [reflexivity|].
  destruct (decide (URL_Path r = "/json-as-text")); [done|].
  destruct (String.prefix "/" (URL_Path r)); [|reflexivity].
  unfold indexHandler, Part000.indexHandler. simpl.
  destruct (decide (URL_Path r ≠ "/")); [reflexivity|done].
Qed.

(** *** Witnesses *)

Lemma routes_dispatch_witness :
  RequestURI req_missing ≠ "*" ∧
  no_redirect (Method req_missing) (URL_Path req_missing) = None ∧
  URL_Path req_missing ∉ ["/health"; "/hello"; "/json-as-text"] ∧
  String.prefix "/" (URL_Path req_missing) = true ∧
  ServeMux_ServeHTTP no_redirect (routes parse_fails execute_nothing) req_missing
    (fresh world0) =
  indexHandler parse_fails execute_nothing req_missing (fresh world0).
Proof.
  assert (RequestURI req_missing ≠ "*") as H1 by (intros H; discriminate H).
  assert (URL_Path req_missing ∉ ["/health"; "/hello"; "/json-as-text"]) as H3.
  { apply (bool_decide_unpack _). vm_compute. exact I. }
  split; [exact H1|]. split; [reflexivity|]. split; [exact H3|]. split; [reflexivity|].
  exact (proj1 (proj2 (proj2 (proj2
           (routes_dispatch parse_fails execute_nothing no_redirect req_missing
              (fresh world0) H1 eq_refl)))) H3 eq_refl).
Defined.


Lemma index_parse_error_witness :
  URL_Path req_index = "/" ∧
  parse_fails = Some "template: index:2: expected :=" ∧
  outbound_status (rw (indexHandler parse_fails execute_nothing req_index (fresh world0)).2) =
    500 ∧
  outbound_body (Method req_index)
    (rw (indexHandler parse_fails execute_nothing req_index (fresh world0)).2) =
    [Sprintln ["template: index:2: expected :="]].
Proof.
  split; [reflexivity|]. split; [reflexivity|].
  pose proof (index_parse_error parse_fails execute_nothing req_index (fresh world0) _
                eq_refl eq_refl eq_refl eq_refl) as (_ & H500 & _ & Hbody & _).
  split; [exact H500|exact Hbody].
Defined.


Lemma json_as_text_response_witness :
  URL_Path req_json = "/json-as-text" ∧ RequestURI req_json ≠ "*" ∧
  outbound_body (Method req_json)
    (rw (server_Handler parse_fails execute_nothing no_redirect req_json (fresh world0)).2) =
    [Sprintln [status_ok_json]].
Proof.
  assert (RequestURI req_json ≠ "*") as H by (intros H; discriminate H).
  split; [reflexivity|]. split; [exact H|].
  pose proof (json_as_text_response parse_fails execute_nothing no_redirect req_json world0
                eq_refl H eq_refl) as (_ & _ & _ & _ & _ & Hbody).
  exact Hbody.
Defined.

Lemma hello_response_witness :
  URL_Path req_head = "/hello" ∧ RequestURI req_head ≠ "*" ∧
  outbound_body (Method req_head)
    (rw (server_Handler parse_fails execute_nothing no_redirect req_head (fresh world0)).2) =
    [] ∧
  outbound_body (Method req_hello)
    (rw (server_Handler parse_fails execute_nothing no_redirect req_hello (fresh world0)).2) =
    [Sprintln ["Hello, World!"]].
Proof.
  assert (RequestURI req_head ≠ "*") as H by (intros H; discriminate H).
  assert (RequestURI req_hello ≠ "*") as H' by (intros H'; discriminate H').
  split; [reflexivity|]. split; [exact H|]. split.
  - exact (proj2 (proj2 (proj2
             (hello_response parse_fails execute_nothing no_redirect req_head world0
                eq_refl H eq_refl)))).
  - exact (proj2 (proj2 (proj2
             (hello_response parse_fails execute_nothing no_redirect req_hello world0
                eq_refl H' eq_refl)))).
Defined.

Lemma health_response_witness :
  URL_Path req_health = "/health" ∧ RequestURI req_health ≠ "*" ∧
  outbound_status
    (rw (server_Handler parse_fails execute_nothing no_redirect req_health
           (fresh (set_draining world0))).2) = 503 ∧
  outbound_header
    (rw (server_Handler parse_fails execute_nothing no_redirect req_health
           (fresh (set_draining world0))).2) !! "X-Request-Id" =
    Some ["1700000000000000000"].
Proof.
  assert (RequestURI req_health ≠ "*") as H by (intros H; discriminate H).
  split; [reflexivity|]. split; [exact H|].
  pose proof (health_response parse_fails execute_nothing no_redirect req_health
                (set_draining world0) eq_refl H eq_refl) as (_ & _ & Hst & Hid & _).
  split; [exact Hst|exact Hid].
Defined.

Lemma logging_outside_tracing_witness :
  Header_Get (Headers req_tagged) "X-Request-Id" ≠ "" ∧
  (assert_string (Value (Ctx req_tagged) requestIDKey)).2 = false ∧
  outbound_header
    (rw (logging logger (tracing nextRequestID helloHandler) req_tagged (fresh world0)).2)
    !! "X-Request-Id" = Some ["abc-123"] ∧
  ∃ before,
    log_calls
      (world (logging logger (tracing nextRequestID helloHandler) req_tagged
                (fresh world0)).2) =
    before ++ [(logger, ["unknown"; "GET"; "/hello"; "10.0.0.7:40312"; ""])].
Proof.
  assert (Header_Get (Headers req_tagged) "X-Request-Id" ≠ "") as H.
  { intros H. vm_compute in H. discriminate H. }
  split; [exact H|]. split; [reflexivity|].
  exact (logging_outside_tracing nextRequestID logger helloHandler req_tagged (fresh world0)
           H eq_refl quiet_helloHandler eq_refl).
Defined.

Lemma handler_chains_agree_witness :
  URL_Path req_hello ∉ ["/"; "/health"; "/json-as-text"] ∧
  Main.server_Handler parse_fails execute_nothing no_redirect req_hello (fresh world0) =
  Part000.server_Handler parse_ok execute_fails no_redirect req_hello (fresh world0).
Proof.
  assert (URL_Path req_hello ∉ ["/"; "/health"; "/json-as-text"]) as H.
  { apply (bool_decide_unpack _). vm_compute. exact I. }
  split; [exact H|].
  exact (handler_chains_agree parse_fails execute_nothing parse_ok execute_fails no_redirect
           req_hello (fresh world0) H).
Defined.

End Handlers.

(** ** How an execution of [main] ends *)

Module Termination.
Import Go Main Orchestrator Stages GoFacts Examples Lifecycle.

(** The status of a health check, through the two stages. *)
Lemma probe_status r w :
  outbound_status
    (rw (tracing nextRequestID (logging logger healthHandler) r
           {| rw := newResponse; world := w |}).2) =
  if decide (healthy w = 1) then 204 else 503.
Proof.
  unfold tracing, logging, defer, healthHandler, nextRequestID.
  destruct (decide (Header_Get (Headers r) "X-Request-Id" = "")); simpl;
    destruct (decide (healthy w = 1)); done.
Qed.

Lemma finish_step env s a :
  Positions s → Outcome s → Finish env s → Finish env (step env s a).
Proof.
  intros HP HO H. step_cases; try exact H.
  all: destruct HP as [_ _ _ _ _ P6], HO as [C1 C2 C3 C4 C5 C6 C7 C8],
         H as [N1 N2 N3 N4 N5 N6 N7 N8 N9 N10 N11].
  all: constructor; proc_simpl.
  all: rewrite ?elem_of_app, ?list_elem_of_singleton.
  all: use_known; use_fields; rewrite_state.
  all: know_eqs.
  all: try tauto.
  all: try match goal with
         | |- Is_true (?n <=? 1)%nat => by destruct n as [|[|?]]
         end.
  all: intros _; rewrite ?elem_of_app, ?list_elem_of_singleton;
    first [left; by auto | right; by auto].
Qed.

Lemma ending_step env s a :
  Outcome s → Finish env s → Ending s → Ending (step env s a).
Proof.
  intros HO HN H. step_cases; try exact H.
  all: destruct HO as [C1 C2 C3 C4 C5 C6 C7 C8],
         HN as [N1 N2 N3 N4 N5 N6 N7 N8 N9 N10 N11], H as [E1 E2 E3].
  all: constructor; proc_simpl.
  all: rewrite ?precedes_snoc.
  all: use_known; use_fields; rewrite_state.
  all: clear N10 N11 N9 N8 N7.
  all: know_eqs.
  all: tauto.
Qed.

Lemma checks_step env s a :
  Positions s → Flag s → Finish env s → Checks s → Checks (step env s a).
Proof.
  intros HP HF HN H. step_cases; try exact H.
  all: destruct HP as [P1 _ _ _ _ _], HF as [F1 F2 F3],
         HN as [_ _ _ _ N5 N6 _ _ _ _ _], H as [K1 K2 K3].
  all: constructor; proc_simpl;
    try match goal with |- ∀ c : Z, _ => intros c end.
  all: rewrite ?precedes_snoc, ?elem_of_app, ?list_elem_of_singleton, ?probe_status.
  all: try specialize (K1 c); try specialize (K3 c).
  all: use_fields.
  all: know_eqs.
  all: try tauto.
  - split; [done|]. destruct (decide (healthy (p_world s) = 1)) as [|Hh]; [done|].
    intros _. destruct (decide (EvStoreHealthy 0 ∈ trace s)) as [|Hn]; [done|].
    destruct Hh. apply F2; [|done]. apply P1.
    destruct (N6 (N5 eq_refl)) as [_ Hr]. by destruct (main_pc s).
  - intros [Hin|Heq]; [by apply K3|]. injection Heq as ->.
    destruct (decide _); auto.
Qed.

Lemma settled_step env s a : Positions s → Flag s → Settled s → Settled (step env s a).
Proof.
  intros HP HF H. step_cases; try exact H.
  all: destruct HP as [P1 P2 _ _ _ _], HF as [F1 F2 F3].
  all: unfold Settled in *; proc_simpl.
  all: rewrite ?precedes_snoc, ?probe_status.
  all: intros Hord i j c Hi Hij Hj.
  all: destruct_and?.
  all: repeat match goal with
         | Hl : (_ ++ [_]) !! _ = Some _ |- _ =>
             apply lookup_snoc_Some in Hl as [[? ?]|[? ?]]
         end.
  all: try discriminate.
  all: try lia.
  all: try (by eapply H).
  injection H6 as <-. rewrite F3; [done| |done]. by eapply list_elem_of_lookup_2.
Qed.

(** The four invariants hold in every execution. *)
Lemma more_invariants_exec env sched :
  let s := exec env sched in
  Finish env s ∧ Ending s ∧ Checks s ∧ Settled s.
Proof.
  induction sched as [|a sched IH] using rev_ind.
  - split; [|split; [|split]].
    + constructor; simpl; rewrite ?elem_of_nil; try done; try tauto.
    + constructor; apply precedes_nil.
    + constructor; intros; try apply precedes_nil. by apply elem_of_nil in H.
    + intros _ i j c Hi. simpl in Hi. by rewrite lookup_nil in Hi.
  - rewrite exec_snoc. destruct IH as (HN & HE & HK & HS).
    destruct (invariants_exec env sched) as (HP & _ & HF & HO & _ & _).
    split; [|split; [|split]].
    + by apply finish_step.
    + by eapply ending_step.
    + by eapply checks_step.
    + by eapply settled_step.
Qed.

Lemma precedes_trans a b c tr : precedes a b tr → precedes b c tr → precedes a c tr.
Proof.
  intros Hab Hbc i Hi. destruct (Hbc i Hi) as (j & Hj & Hb).
  destruct (Hab j Hb) as (k & Hk & Ha). exists k. split; [lia|done].
Qed.


(** X14: when the socket cannot be bound the server never serves: in every
    execution the socket is never bound and no health check is answered.
    Without a signal, the first five steps of [main] set the flag to
    ready, report the error with [Fatalf] and end the process with
    status 1. *)
Theorem bind_failure_is_fatal env sched err :
  bind_error env = Some err →
  let s := exec env sched in
  EvBind ∉ trace s ∧ server s ≠ SrvListening ∧ (∀ c, EvHealthCheck c ∉ trace s) ∧
  trace (exec env startup) =
    [EvNotify; EvSpawn;
     EvPrintln ["Server is ready to handle requests at"; listenAddr env];
     EvStoreHealthy 1; EvFatalf (listen_text (listenAddr env) err);
     EvExit (ExitCode 1)] ∧
  exited (exec env startup) = Some (ExitCode 1) ∧
  is_ready (p_world (exec env startup)) = true.
Proof.
  intros Hb s.
  destruct (more_invariants_exec env sched) as (HN & _ & [K1 _ _] & _).
  fold s in HN, K1.
  assert (EvBind ∉ trace s) as Hn.
  { intros [Hnone _]%(fin_bind _ _ HN). congruence. }
  split; [done|]. split; [by intros ?%(fin_listening _ _ HN)|].
  split; [intros c Hc; by apply Hn, (precedes_elem _ _ _ (K1 c))|].
  destruct env as [addr be infl t0]. simpl in Hb. subst be.
  split; [|split]; vm_compute; reflexivity.
Qed.

(** X15: the answers of the health endpoint in an execution of [main]: a
    health check is answered only after the socket was bound, with 204 or
    with 503; 204 only after the ready store, and 503 only after the store
    that starts draining. *)
Theorem health_check_answers env sched :
  let tr := trace (exec env sched) in
  (∀ c, EvHealthCheck c ∈ tr → c = 204 ∨ c = 503) ∧
  (∀ c, precedes EvBind (EvHealthCheck c) tr) ∧
  precedes (EvStoreHealthy 1) (EvHealthCheck 204) tr ∧
  precedes (EvStoreHealthy 0) (EvHealthCheck 503) tr.
Proof.
  intros tr. subst tr.
  destruct (more_invariants_exec env sched) as (_ & _ & [K1 K2 K3] & _).
  destruct (invariants_exec env sched) as (_ & [_ _ _ _ O5] & _).
  split; [done|]. split; [done|]. split; [|done].
  eapply precedes_trans; [exact O5|apply K1].
Qed.


(** X17: how the program ends the process, from line 47 on and with
    interrupt and termination signals, health checks and the clock as its
    environment.  The program itself ends the process with status 0 or 1
    only, and status 1 always comes from one of the two [Fatalf] calls, the
    one that reports the bind error or the one that reports the error of
    [Shutdown].  An interrupt or a termination signal kills the process
    only when it arrives before [signal.Notify] has run; afterwards it is
    queued, and at most one signal waits in the channel [quit]. *)
Theorem exit_status_cases env sched :
  let s := exec env sched in
  (quit s ≤ 1)%nat ∧
  match exited s with
  | None => True
  | Some KilledBySignal => EvNotify ∉ trace s ∧ main_pc s = MNotify
  | Some (ExitCode c) =>
      (c = 0 ∧ EvExit (ExitCode 0) ∈ trace s) ∨
      (c = 1 ∧
       ((∃ err, bind_error env = Some err ∧
                EvFatalf (listen_text (listenAddr env) err) ∈ trace s) ∨
        (∃ e, shutdown_err s = Some e ∧ EvFatalf (fatal_text e) ∈ trace s)))
  end.
Proof.
  intros s. destruct (more_invariants_exec env sched) as (HN & _ & _ & _).
  fold s in HN. destruct HN as [N1 _ _ _ _ _ N7 N8 N9 N10 N11].
  split; [by apply Nat.leb_le, Is_true_eq_true|].
  destruct (exited s) as [[c|]|] eqn:Hex; [| |done].
  - destruct N11 as [?|[[= ->]|[[= ->]|?]]]; try done.
    + left. auto.
    + right. split; [done|]. destruct (N10 eq_refl) as [Hl|Hf].
      * left. destruct (bind_error env) as [err|]; [|done]. by exists err.
      * right. destruct (shutdown_err s) as [e|]; [|done]. by exists e.
  - pose proof (N9 eq_refl) as Hn. split; [done|].
    destruct (main_pc s); try done; by destruct Hn; apply N1.
Qed.

(** *** A signal ends the process

    The threads never go back, and while the process runs one of them can
    move: so every fair schedule reaches the end. *)

Section Quiet.

Variable env : Env.
Hypothesis bind_ok : bind_error env = None.
Hypothesis drain_ok : drain shutdownTimeout (inflight env) = None.

Lemma calm_step s a :
  Positions s → Effects env s → Calm s → Calm (step env s a).
Proof.
  intros HP HE H. step_cases; try exact H.
  all: destruct HP as [_ _ _ _ _ P6], HE as [_ _ _ E4], H as [C1 C2 C3 C4].
  all: constructor; proc_simpl.
  all: use_known; use_fields; rewrite_state.
  all: know_eqs.
  all: try tauto.
  all: try congruence.
  destruct E4 as [->|[_ ->]]; [reflexivity|exact drain_ok].
Qed.

Lemma armed_step s a : Positions s → Armed s → Armed (step env s a).
Proof.
  intros HP H. step_cases; try exact H.
  all: destruct HP as [_ _ _ _ _ P6], H as [A1 A2].
  all: constructor; proc_simpl.
  all: use_known; use_fields.
  all: know_eqs.
  all: try tauto.
  all: try congruence.
Qed.

Lemma calm_exec sched : Calm (exec env sched).
Proof.
  induction sched as [|a sched IH] using rev_ind.
  - constructor; simpl; try done; try tauto; by left.
  - rewrite exec_snoc. apply calm_step; [|apply effects_exec|done].
    by destruct (invariants_exec env sched) as (HP & _).
Qed.

Lemma armed_exec sched rest :
  Armed (exec env sched) → Armed (exec env (sched ++ rest)).
Proof.
  intros H. induction rest as [|a rest IH] using rev_ind.
  - by rewrite app_nil_r.
  - rewrite app_assoc, exec_snoc. apply armed_step; [|done].
    by destruct (invariants_exec env (sched ++ rest)) as (HP & _).
Qed.

(** No step takes a thread back. *)
Lemma progress_step s a : Positions s → (progress s ≤ progress (step env s a))%nat.
Proof.
  intros [_ _ _ _ _ P6]. unfold progress. step_cases; try lia.
  all: use_known; cbn [Nat.add]; try lia.
  all: destruct (sig_pc s); cbn in *; try lia; tauto.
Qed.

Lemma progress_exec sched rest :
  (progress (exec env sched) ≤ progress (exec env (sched ++ rest)))%nat.
Proof.
  induction rest as [|a rest IH] using rev_ind.
  - by rewrite app_nil_r.
  - rewrite app_assoc, exec_snoc. etransitivity; [exact IH|].
    apply progress_step. by destruct (invariants_exec env (sched ++ rest)) as (HP & _).
Qed.

Lemma progress_bound s : (progress s ≤ 18)%nat.
Proof. unfold progress. destruct (main_pc s), (sig_pc s); cbn; lia. Qed.

(** A thread whose next statement can run moves on when it is run. *)
Lemma main_moves s :
  Positions s → exited s = None → main_enabled s = true →
  (progress s < progress (step env s RunMain))%nat.
Proof.
  intros [_ _ _ _ _ P6] Hex Hen. unfold step, step_main, main_enabled, progress in *.
  rewrite Hex. rewrite bind_ok.
  destruct (main_pc s) eqn:Hpc; proc_simpl; try lia; try done.
  - destruct P6 as [_ P6]. rewrite (P6 I). cbn. lia.
  - destruct (server s); proc_simpl; lia.
  - apply bool_decide_eq_true in Hen. rewrite Hen. proc_simpl. lia.
  - rewrite Hen. proc_simpl. lia.
Qed.

Lemma sig_moves s :
  Calm s → exited s = None → sig_enabled s = true →
  (progress s < progress (step env s RunSignalHandler))%nat.
Proof.
  intros [C1 _ _ _] Hex Hen. unfold step, step_sig, sig_enabled, progress in *.
  rewrite Hex, C1.
  destruct (sig_pc s) eqn:Hpc; proc_simpl; try lia; try done.
  destruct (quit s); [done|]. proc_simpl. lia.
Qed.

(** While the process runs, one of the two threads can move. *)
Lemma can_move s :
  Positions s → Outcome s → Calm s → Armed s → exited s = None →
  main_enabled s = true ∨ sig_enabled s = true.
Proof.
  intros [_ _ _ _ _ P6] [_ _ _ _ _ O6 _ _] [_ C2 C3 _] [_ A2] Hex.
  unfold main_enabled, sig_enabled.
  destruct (main_pc s) eqn:Hm; try (by left).
  - destruct (sig_pc s) eqn:Hs; cbn in *; try (by right).
    + destruct P6 as [P6 _]. by specialize (P6 eq_refl).
    + right. destruct A2 as [A2|A2]; [|done]. by apply Is_true_eq_true.
    + left. rewrite bool_decide_true; [done|]. by apply O6.
  - destruct (sig_pc s) eqn:Hs; cbn in *; try (by right).
    + destruct P6 as [P6 _]. by specialize (P6 eq_refl).
    + right. destruct A2 as [A2|A2]; [|done]. by apply Is_true_eq_true.
    + left. by apply C2.
  - destruct C3 as [C3 _]. rewrite Hex in C3. by specialize (C3 eq_refl).
Qed.

(** A step that moves no thread leaves the process running and changes
    nothing the threads wait for, except that it may put a signal into the
    channel. *)
Lemma idle_step s a :
  Positions s → Calm s → Armed s → exited s = None →
  (progress (step env s a) ≤ progress s)%nat →
  exited (step env s a) = None ∧
  main_pc (step env s a) = main_pc s ∧ sig_pc (step env s a) = sig_pc s ∧
  server (step env s a) = server s ∧ done_closed (step env s a) = done_closed s ∧
  (quit s ≤ quit (step env s a))%nat.
Proof.
  intros [_ _ _ _ _ P6] [C1 _ _ _] [A1 _] Hex.
  unfold step. rewrite Hex. destruct a.
  - unfold step_main, progress. rewrite bind_ok.
    destruct (main_pc s) eqn:Hm; try destruct (server s) eqn:Hsrv;
      try destruct (done_closed s) eqn:Hd;
      proc_simpl; intros Hle;
      first [ exfalso; lia
            | repeat split; first [done|lia]
            | idtac ].
    all: exfalso; destruct P6 as [_ P6]; rewrite (P6 I) in Hle; cbn in Hle; lia.
  - unfold step_sig, progress. rewrite C1.
    destruct (sig_pc s) eqn:Hs; try destruct (quit s) eqn:Hq; proc_simpl; intros Hle;
      first [ exfalso; lia | repeat split; first [done|lia] ].
  - unfold deliver_signal. rewrite A1. intros _.
    destruct (quit s) eqn:Hq; proc_simpl; repeat split; first [done|lia].
  - unfold health_check. intros _.
    destruct (server s) eqn:Hsrv; proc_simpl; repeat split; first [done|lia].
  - intros _. repeat split; first [done|lia].
Qed.

Lemma idle_enabled s a :
  Positions s → Calm s → Armed s → exited s = None →
  (progress (step env s a) ≤ progress s)%nat →
  (main_enabled s = true → main_enabled (step env s a) = true) ∧
  (sig_enabled s = true → sig_enabled (step env s a) = true).
Proof.
  intros HP HC HA Hex Hle.
  destruct (idle_step s a HP HC HA Hex Hle) as (_ & Hm & Hs & Hsrv & Hd & Hq).
  unfold main_enabled, sig_enabled. rewrite Hm, Hs, Hsrv, Hd. split; [done|].
  destruct (sig_pc s); try done.
  intros H%Nat.ltb_lt. apply Nat.ltb_lt. lia.
Qed.

(** Once the process has ended nothing moves. *)
Lemma exited_exec sched rest e :
  exited (exec env sched) = Some e → exec env (sched ++ rest) = exec env sched.
Proof.
  intros H. induction rest as [|a rest IH] using rev_ind.
  - by rewrite app_nil_r.
  - rewrite app_assoc, exec_snoc, IH. unfold step. by rewrite H.
Qed.

(** A round moves the thread that can move. *)
Lemma round_moves block : ∀ sched,
  let s := exec env sched in
  Armed s → exited s = None →
  (main_enabled s = true ∧ RunMain ∈ block) ∨
  (sig_enabled s = true ∧ RunSignalHandler ∈ block) →
  (progress s < progress (exec env (sched ++ block)))%nat.
Proof.
  induction block as [|a block IH]; intros sched s HA Hex Hen.
  { destruct Hen as [[_ H]|[_ H]]; by apply elem_of_nil in H. }
  destruct (invariants_exec env sched) as (HP & _). fold s in HP.
  pose proof (calm_exec sched) as HC. fold s in HC.
  replace (sched ++ a :: block) with ((sched ++ [a]) ++ block)
    by (by rewrite <- app_assoc).
  assert (exec env (sched ++ [a]) = step env s a) as Es by apply exec_snoc.
  pose proof (progress_exec (sched ++ [a]) block) as Hmono. rewrite Es in Hmono.
  pose proof (progress_step s a HP) as Hstep.
  destruct (decide (progress s < progress (step env s a))%nat) as [Hlt|Hge]; [lia|].
  assert (progress (step env s a) ≤ progress s)%nat as Hle by lia.
  destruct (idle_step s a HP HC HA Hex Hle) as (Hex' & _).
  destruct (idle_enabled s a HP HC HA Hex Hle) as (Hm & Hs).
  assert ((main_enabled (step env s a) = true ∧ RunMain ∈ block) ∨
          (sig_enabled (step env s a) = true ∧ RunSignalHandler ∈ block)) as Hen'.
  { destruct Hen as [[Hen Hin]|[Hen Hin]].
    - left. split; [by apply Hm|]. apply elem_of_cons in Hin as [Ha|Hin]; [|done].
      exfalso. pose proof (main_moves s HP Hex Hen) as Hmv. rewrite Ha in Hmv. lia.
    - right. split; [by apply Hs|]. apply elem_of_cons in Hin as [Ha|Hin]; [|done].
      exfalso. pose proof (sig_moves s HC Hex Hen) as Hmv. rewrite Ha in Hmv. lia. }
  assert (progress s < progress (exec env ((sched ++ [a]) ++ block)))%nat; [|done].
  apply Nat.le_lt_trans with (progress (exec env (sched ++ [a]))).
  { rewrite Es. lia. }
  apply IH.
  - apply armed_exec. exact HA.
  - by rewrite Es.
  - by rewrite Es.
Qed.

(** Every round moves a thread, until the process has ended. *)
Lemma rounds_move rounds : ∀ sched,
  let s := exec env sched in
  Armed s → Forall round rounds →
  let s' := exec env (sched ++ concat rounds) in
  exited s' ≠ None ∨ (progress s + length rounds ≤ progress s')%nat.
Proof.
  induction rounds as [|block rounds IH]; intros sched s HA Hall s'.
  { right. subst s'. simpl. rewrite app_nil_r. fold s. lia. }
  apply Forall_cons in Hall as [[Hm Hs] Hall]. subst s'.
  simpl. rewrite app_assoc.
  destruct (exited s) as [e|] eqn:Hex.
  { left. rewrite <- app_assoc, (exited_exec sched _ e Hex). fold s. by rewrite Hex. }
  destruct (invariants_exec env sched) as (HP & _ & _ & HO & _). fold s in HP, HO.
  pose proof (calm_exec sched) as HC. fold s in HC.
  assert (progress s < progress (exec env (sched ++ block)))%nat as Hlt.
  { apply round_moves; [done..|].
    destruct (can_move s HP HO HC HA Hex); [left|right]; done. }
  destruct (IH (sched ++ block) (armed_exec sched block HA) Hall) as [Hdone|Hle].
  - by left.
  - right. simpl. lia.
Qed.

End Quiet.




(** X18: once [signal.Notify] has run, an interrupt or a termination
    signal ends the process cleanly under every fair schedule, whenever the
    socket can be bound and every request in flight completes within the
    deadline.  Whatever runs next (the two threads in any order, further
    signals, health checks, the clock), the process is still running or has
    ended with status 0, never with an error; and after eighteen rounds in
    each of which both threads get a turn it has ended with status 0, with
    the listener closed, the wait ended without error and [done] closed,
    and with the flag not ready when the ready store came before the
    draining store. *)
Theorem signal_ends_process env sched rounds :
  bind_error env = None →
  Forall (λ c, ∃ n, c = Some n ∧ (n ≤ shutdownTimeout)%nat) (inflight env) →
  let s := exec env sched in
  notified s = true → exited s = None →
  (0 < quit s)%nat ∨ (1 < sig_rank (sig_pc s))%nat →
  (∀ rest,
     let s' := exec env (sched ++ rest) in
     exited s' = None ∨ exited s' = Some (ExitCode 0)) ∧
  (Forall round rounds → (18 ≤ length rounds)%nat →
   let s' := exec env (sched ++ concat rounds) in
   exited s' = Some (ExitCode 0) ∧
   sig_pc s' = GEnd ∧ server s' = SrvClosed ∧ shutdown_err s' = None ∧
   done_closed s' = true ∧
   (precedes (EvStoreHealthy 1) (EvStoreHealthy 0) (trace s') →
    is_ready (p_world s') = false)).
Proof.
  intros Hb Hall s Hn Hex Hq. apply drain_None_iff in Hall.
  assert (Armed s) as HA.
  { split; [done|]. destruct Hq as [Hq|Hq]; [left|right];
      by apply Is_true_true, Nat.ltb_lt. }
  assert (∀ rest, exited (exec env (sched ++ rest)) = None ∨
                  exited (exec env (sched ++ rest)) = Some (ExitCode 0)) as Hsafe.
  { intros rest. destruct (armed_exec env Hb sched rest HA) as [Hn' _].
    destruct (calm_exec env Hb Hall (sched ++ rest)) as [_ _ _ [?|[?|[_ Hk]]]]; [by left|by right|].
    congruence. }
  split; [exact Hsafe|]. intros Hr Hlen s'. subst s'.
  pose proof (calm_exec env Hb Hall (sched ++ concat rounds)) as [C1 C2 C3 C4].
  destruct (invariants_exec env (sched ++ concat rounds))
    as ([_ P2 _ _ _ _] & _ & [_ _ F3] & [_ O2 O3 _ _ O6 _ _] & _).
  pose proof (rounds_move env Hb Hall rounds sched HA Hr) as Hmove. cbv zeta in Hmove.
  specialize (Hsafe (concat rounds)).
  pose proof (progress_bound (exec env (sched ++ concat rounds))) as Hbound.
  remember (exec env (sched ++ concat rounds)) as s' eqn:Es'. clear Es'.
  assert (exited s' = Some (ExitCode 0)) as Hend.
  { destruct Hmove as [Hdone|Hle].
    - destruct Hsafe as [Hnone|Hzero]; [done|exact Hzero].
    - assert (progress s' = 18)%nat as H18 by lia.
      apply C3. unfold progress in H18.
      destruct (main_pc s'), (sig_pc s'); cbn in H18; try lia; done. }
  assert (main_pc s' = MEnd) as Hm by (by apply C3).
  assert (done_closed s' = true) as Hd by (apply O3; by rewrite Hm).
  assert (sig_pc s' = GEnd) as Hg by (by apply O2).
  split; [exact Hend|]. split; [exact Hg|].
  split; [apply O6; by rewrite Hg|]. split; [exact C1|]. split; [exact Hd|].
  intros Hord. unfold is_ready. rewrite F3; [done| |done].
  apply P2. by rewrite Hg.
Qed.


(** *** Witnesses *)


Lemma bind_failure_is_fatal_witness :
  bind_error env_port_taken = Some "listen tcp :9000: bind: address already in use" ∧
  EvBind ∉ trace (exec env_port_taken graceful) ∧
  exited (exec env_port_taken startup) = Some (ExitCode 1).
Proof.
  split; [reflexivity|].
  pose proof (bind_failure_is_fatal env_port_taken graceful _ eq_refl)
    as (Hn & _ & _ & _ & Hex & _).
  split; [exact Hn|exact Hex].
Defined.


Lemma signal_ends_process_witness :
  bind_error env_quick = None ∧
  Forall (λ c, ∃ n, c = Some n ∧ (n ≤ shutdownTimeout)%nat) (inflight env_quick) ∧
  notified (exec env_quick (startup ++ [Signal])) = true ∧
  exited (exec env_quick (startup ++ [Signal])) = None ∧
  (0 < quit (exec env_quick (startup ++ [Signal])))%nat ∧
  Forall round fair_rounds ∧ (18 ≤ length fair_rounds)%nat ∧
  exited (exec env_quick ((startup ++ [Signal]) ++ concat fair_rounds)) =
    Some (ExitCode 0).
Proof.
  assert (Forall (λ c, ∃ n, c = Some n ∧ (n ≤ shutdownTimeout)%nat) (inflight env_quick))
    as H1.
  { repeat (constructor; [exists 2%nat; split; [reflexivity|unfold shutdownTimeout; lia]|]).
    constructor. }
  assert (notified (exec env_quick (startup ++ [Signal])) = true) as H2.
  { vm_compute. reflexivity. }
  assert (exited (exec env_quick (startup ++ [Signal])) = None) as H3.
  { vm_compute. reflexivity. }
  assert (0 < quit (exec env_quick (startup ++ [Signal])))%nat as H4.
  { vm_compute. lia. }
  assert (Forall round fair_rounds) as H5.
  { unfold fair_rounds. apply Forall_replicate. split; rewrite !elem_of_cons; auto. }
  assert (18 ≤ length fair_rounds)%nat as H6.
  { unfold fair_rounds. rewrite length_replicate. lia. }
  split; [reflexivity|]. split; [exact H1|]. split; [exact H2|]. split; [exact H3|].
  split; [exact H4|]. split; [exact H5|]. split; [exact H6|].
  exact (proj1 (proj2 (signal_ends_process env_quick (startup ++ [Signal]) _
                         eq_refl H1 H2 H3 (or_introl H4)) H5 H6)).
Defined.


End Termination.
